(** * PopPUNK network functions: a shallow embedding of [PopPUNK/network.py]

    The development follows the Python module function by function:
    [extractReferences], [constructNetwork], [addQueryToNetwork],
    [printClusters] and [readClusters].  Python values are modelled as
    follows.

    - a sample name is a [string];
    - a Python [list] is a [list];
    - a Python [set] of names is a duplicate-free [list] (module [PySet]);
      Python fixes no iteration order for a set of strings, so nothing
      below is stated about the order of the members of a set;
    - a Python [dict] is an association list in insertion order (module
      [PyDict]), the order in which Python iterates it;
    - a raised exception is the [Raise] case of [result];
    - a [networkx.Graph] is the record [Graph]: nodes in insertion order
      and an undirected edge list. *)

From Stdlib Require Import String Ascii DecimalString DecimalNat.
From Stdlib Require Import List Bool Arith Lia Permutation Sorted ZArith.
Import ListNotations.
Local Open Scope string_scope.
Local Open Scope list_scope.
Local Open Scope nat_scope.

Set Implicit Arguments.

(** ** Exceptions and results *)

Definition sample := string.

Inductive exception : Type :=
| RuntimeError (msg : string)
| AssertionError
| ValueError (msg : string)
| ZeroDivisionError
| IndexError
| OSError
| ExternalToolError (msg : string).

Inductive result (A : Type) : Type :=
| Ok (a : A)
| Raise (e : exception).
Arguments Ok {A} a.
Arguments Raise {A} e.

Definition bind {A B} (r : result A) (k : A -> result B) : result B :=
  match r with
  | Ok a => k a
  | Raise e => Raise e
  end.

Declare Scope py_scope.
Notation "x <- c1 ;; c2" := (bind c1 (fun x => c2))
  (at level 61, c1 at next level, right associativity) : py_scope.
Notation "' pat <- c1 ;; c2" := (bind c1 (fun x => match x with pat => c2 end))
  (at level 61, pat pattern, c1 at next level, right associativity) : py_scope.
Local Open Scope py_scope.

Definition newline : string := String (ascii_of_nat 10) EmptyString.

(** An I/O error is an [OSError]; everything else is not. *)
Definition is_io_error (e : exception) : bool :=
  match e with
  | OSError => true
  | _ => false
  end.

(** ** Python sets of names *)

Module PySet.

Definition t := list sample.

Definition mem (x : sample) (s : t) : bool := existsb (String.eqb x) s.

Definition add (x : sample) (s : t) : t := if mem x s then s else s ++ [x].

(** [set(l)] *)
Definition of_list (l : list sample) : t := fold_left (fun s x => add x s) l [].

(** [a.intersection(b)] *)
Definition inter (a b : t) : t := filter (fun x => mem x b) a.

(** [a.difference(b)] *)
Definition diff (a b : t) : t := filter (fun x => negb (mem x b)) a.

(** [s.update(l)] *)
Definition update (s : t) (l : list sample) : t := fold_left (fun s x => add x s) l s.

Definition len (s : t) : nat := length s.

End PySet.

(** ** Python dicts, in insertion order *)

Module PyDict.

Section Dict.
Variable V : Type.

Definition t := list (string * V).

Fixpoint get (k : string) (d : t) : option V :=
  match d with
  | [] => None
  | (k', v) :: d' => if String.eqb k k' then Some v else get k d'
  end.

(** [d[k] = v]: an existing key keeps its position. *)
Fixpoint set (k : string) (v : V) (d : t) : t :=
  match d with
  | [] => [(k, v)]
  | (k', v') :: d' =>
      if String.eqb k k' then (k', v) :: d' else (k', v') :: set k v d'
  end.

Definition keys (d : t) : list string := map fst d.
Definition values (d : t) : list V := map snd d.
End Dict.

End PyDict.

(** ** Stable sorting, as [sorted] and [list.sort] do it

    [leb x y] says that [x] may stand before [y].  An element is inserted
    before the first element it may stand before, so elements with equal
    keys keep their order, also with [reverse=True]. *)

Section StableSort.
Variable A : Type.
Variable leb : A -> A -> bool.

Fixpoint insert_sorted (x : A) (l : list A) : list A :=
  match l with
  | [] => [x]
  | y :: ys => if leb x y then x :: y :: ys else y :: insert_sorted x ys
  end.

Fixpoint sorted (l : list A) : list A :=
  match l with
  | [] => []
  | x :: xs => insert_sorted x (sorted xs)
  end.
End StableSort.

(** [sorted(l, key=len, reverse=True)] *)
Definition sorted_by_len_desc (A : Type) (l : list (list A)) : list (list A) :=
  sorted (fun x y => length y <=? length x) l.

(** ** The network: a [networkx.Graph]

    [G.add_node], [G.add_edge], [G.add_nodes_from] and [G.add_edges_from]
    as networkx defines them: a node is added once, an edge adds its
    endpoints when they are missing, and an edge that is already there is
    not added again.  Iterating a graph gives its nodes in insertion
    order. *)

Record Graph : Type := mkGraph {
  nodes : list sample;
  edges : list (sample * sample)
}.

Definition empty_graph : Graph := mkGraph [] [].

Definition has_node (G : Graph) (v : sample) : bool := PySet.mem v (nodes G).

Definition has_edge (G : Graph) (u v : sample) : bool :=
  existsb (fun e => (String.eqb (fst e) u && String.eqb (snd e) v)
                    || (String.eqb (fst e) v && String.eqb (snd e) u)) (edges G).

Definition add_node (G : Graph) (v : sample) : Graph :=
  mkGraph (PySet.add v (nodes G)) (edges G).

Definition add_edge (G : Graph) (e : sample * sample) : Graph :=
  let G' := add_node (add_node G (fst e)) (snd e) in
  if has_edge G (fst e) (snd e) then G'
  else mkGraph (nodes G') (edges G' ++ [e]).

Definition add_nodes_from (G : Graph) (l : list sample) : Graph :=
  fold_left add_node l G.

Definition add_edges_from (G : Graph) (l : list (sample * sample)) : Graph :=
  fold_left add_edge l G.

Definition neighbors (G : Graph) (v : sample) : list sample :=
  filter (fun w => has_edge G v w) (nodes G).

(** ** [constructNetwork]

    [iterDistRows] belongs to [mash.py]; here it is a parameter: any
    enumeration of sample pairs. *)

Section ConstructNetwork.
Variable iterDistRows : list sample -> list sample -> bool -> list (sample * sample).

(** The pairs whose assignment is the within-strain label, in the order
    of the enumeration; [zip] stops at the shorter of its arguments. *)
Definition within_pairs (assignments : list Z) (pairs : list (sample * sample))
           (within_label : Z) : list (sample * sample) :=
  map snd (filter (fun ap => Z.eqb (fst ap) within_label) (combine assignments pairs)).

(** [density_proportion > 0.2 or len(connections) > 100000], with the
    quotient compared exactly: [c / (n(n+1)/2) > 1/5] is [10c > n(n+1)]. *)
Definition large_network_warning (n_conn n_ref : nat) : bool :=
  (n_ref * (n_ref + 1) <? 10 * n_conn) || (100000 <? Z.of_nat n_conn)%Z.

(** Returns the graph and whether the warning was written to [stderr].
    The network summary that [summarise] prints does not change the
    graph and is left out. *)
Definition constructNetwork (rlist qlist : list sample) (assignments : list Z)
           (within_label : Z) : result (Graph * bool) :=
  let connections :=
    within_pairs assignments (iterDistRows rlist qlist true) within_label in
  (* len(connections) / (0.5 * (len(rlist) * (len(rlist) + 1))) *)
  if length rlist * (length rlist + 1) =? 0 then Raise ZeroDivisionError
  else
    let warned := large_network_warning (length connections) (length rlist) in
    let G := add_nodes_from empty_graph rlist in
    let G := fold_left add_edge connections G in
    Ok (G, warned).
End ConstructNetwork.

(** Modelled from the spec: [iterDistRows] of [mash.py], which is not among
    the sources.  With [self] the pairs of the combined list in row-major
    upper-triangular order, self-pairs included; without it the
    (ref, query) cross-pairs. *)
Fixpoint upper_triangular (l : list sample) : list (sample * sample) :=
  match l with
  | [] => []
  | x :: xs => map (pair x) (x :: xs) ++ upper_triangular xs
  end.

Definition iterDistRows_spec (rlist qlist : list sample) (self : bool)
  : list (sample * sample) :=
  if self then upper_triangular (rlist ++ qlist)
  else flat_map (fun r => map (pair r) qlist) rlist.

(** ** [addQueryToNetwork]

    The function mutates the graph it is given and leaves a scratch
    directory on disk while the distances between unassigned queries are
    computed, so the model threads a [world]: the graph and the scratch
    directories that exist.  [getSketchSize], [constructDatabase] and
    [queryDatabase] (of [mash.py]) are one parameter, [queryDatabase],
    from the unassigned queries to the two name lists and the distance
    matrix; the model is the other collaborator. *)

Section AddQueryToNetwork.
Variable iterDistRows : list sample -> list sample -> bool -> list (sample * sample).
Variable DistMat : Type.
Variable queryDatabase : list sample -> result (list sample * list sample * DistMat).

Record ClusterModel : Type := mkModel {
  within_label : Z;
  assign : DistMat -> result (list Z)
}.

Record world : Type := mkWorld {
  net : Graph;
  scratch : list string
}.

(** [G.add_nodes_from(qlist); G.add_edges_from(new_edges)] *)
Definition commit (w : world) (qlist : list sample) (new_edges : list (sample * sample))
  : world :=
  mkWorld (add_edges_from (add_nodes_from (net w) qlist) new_edges) (scratch w).

Definition mkdtemp (w : world) (name : string) : world :=
  mkWorld (net w) (name :: scratch w).

Definition rmtree (w : world) (name : string) : world :=
  mkWorld (net w) (filter (fun d => negb (String.eqb d name)) (scratch w)).

(** Step 1: the within-strain (ref, query) pairs. *)
Definition direct_edges (rlist qlist : list sample) (assignments : list Z)
           (model : ClusterModel) : list (sample * sample) :=
  within_pairs assignments (iterDistRows rlist qlist false) (within_label model).

(** Step 2: the queries with no hits. *)
Definition unassigned_queries (qlist : list sample)
           (new_edges : list (sample * sample)) : PySet.t :=
  let assigned := PySet.of_list (map snd new_edges) in
  PySet.diff (PySet.of_list qlist) assigned.

(** Step 3, the calls that can fail: the distances between the
    unassigned queries and their classification. *)
Definition novel_batch (model : ClusterModel) (unassigned : PySet.t)
  : result (list sample * list sample * list Z) :=
  '(qlist1, qlist2, distMat) <- queryDatabase unassigned ;;
  queryAssignation <- assign model distMat ;;
  Ok (qlist1, qlist2, queryAssignation).

Definition addQueryToNetwork (rlist qlist : list sample) (w : world)
           (assignments : list Z) (model : ClusterModel) (dbPrefix : string)
  : world * result unit :=
  (* store links for each query in a list of edge tuples *)
  let new_edges := direct_edges rlist qlist assignments model in
  let unassigned := unassigned_queries qlist new_edges in
  (* process unassigned query sequences, if there are any *)
  if 1 <? PySet.len unassigned then
    let tmpDirName := (dbPrefix ++ "_tmp")%string in
    let w := mkdtemp w tmpDirName in
    match novel_batch model unassigned with
    | Raise e => (w, Raise e)
    | Ok (qlist1, qlist2, queryAssignation) =>
        let new_edges :=
          new_edges ++ within_pairs queryAssignation
                         (iterDistRows qlist1 qlist2 true) (within_label model) in
        (* remove directory *)
        let w := rmtree w tmpDirName in
        (* finish by updating the network *)
        (commit w qlist new_edges, Ok tt)
    end
  else (commit w qlist new_edges, Ok tt).
End AddQueryToNetwork.

(** ** [extractReferences]

    [cliques] is [list(nx.find_cliques(G))] as the run got it.  networkx
    says which cliques the list holds ([enumerates_maximal_cliques]) but
    fixes neither the order of the cliques nor the order of the members
    of a clique, so the list is an input of its own and no function of
    the graph. *)

Definition is_clique (G : Graph) (S : list sample) : Prop :=
  S <> [] /\
  (forall u, In u S -> In u (nodes G)) /\
  (forall u v, In u S -> In v S -> u <> v -> has_edge G u v = true).

Definition maximal_clique (G : Graph) (S : list sample) : Prop :=
  is_clique G S /\
  forall w, In w (nodes G) -> ~ In w S ->
            exists u, In u S /\ has_edge G u w = false.

Definition same_members (a b : list sample) : Prop := forall x, In x a <-> In x b.

Definition enumerates_maximal_cliques (G : Graph) (cliques : list (list sample)) : Prop :=
  (forall c, In c cliques -> maximal_clique G c) /\
  (forall S, maximal_clique G S -> exists c, In c cliques /\ same_members c S).

(** The loop over the sorted cliques. *)
Fixpoint choose_references (cliques : list (list sample)) (references : list sample)
  : result (list sample) :=
  match cliques with
  | [] => Ok references
  | clique :: rest =>
      let alreadyRepresented :=
        existsb (fun node => PySet.mem node references) clique in
      if alreadyRepresented then choose_references rest references
      else
        match clique with
        | [] => Raise IndexError
        | first :: _ => choose_references rest (references ++ [first])
        end
  end.

(** The written file is returned with the two values of the Python
    function: its name and its lines. *)
Definition extractReferences (cliques : list (list sample)) (outPrefix : string)
  : result (list sample * string * list string) :=
  (* order list by size of clique *)
  let cliques := sorted_by_len_desc cliques in
  references <- choose_references cliques [] ;;
  let refFileName := ("./" ++ outPrefix ++ "/" ++ outPrefix ++ ".refs")%string in
  Ok (references, refFileName, map (fun ref => (ref ++ newline)%string) references).

(** A reference enumeration of the maximal cliques, to show that
    [enumerates_maximal_cliques] can be met: the sublists of the node list
    that are maximal cliques. *)
Fixpoint sublists (l : list sample) : list (list sample) :=
  match l with
  | [] => [[]]
  | x :: xs => map (cons x) (sublists xs) ++ sublists xs
  end.

Definition is_clique_b (G : Graph) (S : list sample) : bool :=
  negb (PySet.len S =? 0)
  && forallb (fun u => PySet.mem u (nodes G)) S
  && forallb (fun u => forallb (fun v => String.eqb u v || has_edge G u v) S) S.

Definition maximal_clique_b (G : Graph) (S : list sample) : bool :=
  is_clique_b G S
  && forallb (fun w => PySet.mem w S || existsb (fun u => negb (has_edge G u w)) S)
             (nodes G).

Definition all_maximal_cliques (G : Graph) : list (list sample) :=
  filter (maximal_clique_b G) (sublists (nodup string_dec (nodes G))).

(** ** Connected components, as [nx.connected_components] yields them

    One breadth-first search per node that no earlier component holds, in
    node order.  [expand] is one level of the search; at most
    [len(G)] levels are needed. *)

Definition expand (G : Graph) (seen : PySet.t) : PySet.t :=
  PySet.update seen (flat_map (neighbors G) seen).

Definition plain_bfs (G : Graph) (source : sample) : PySet.t :=
  Nat.iter (length (nodes G)) (expand G) [source].

Fixpoint components_from (G : Graph) (vs : list sample) (seen : PySet.t)
  : list PySet.t :=
  match vs with
  | [] => []
  | v :: vs' =>
      if PySet.mem v seen then components_from G vs' seen
      else
        let c := plain_bfs G v in
        c :: components_from G vs' (PySet.update seen c)
  end.

Definition connected_components (G : Graph) : list PySet.t :=
  components_from G (nodes G) [].

(** A set of names is closed when no edge leaves it. *)
Definition closed (G : Graph) (S : PySet.t) : Prop :=
  forall v w, In v S -> In w (nodes G) -> has_edge G v w = true -> In w S.

(** ** Strings: [rstrip], [split], [join] and [str]

    Names are byte strings; for ASCII text they are what Python sees. *)

Definition is_space (c : ascii) : bool :=
  let n := nat_of_ascii c in
  ((9 <=? n) && (n <=? 13)) || ((28 <=? n) && (n <=? 32)).

(** [s.rstrip()] *)
Fixpoint rstrip (s : string) : string :=
  match s with
  | EmptyString => EmptyString
  | String c s' =>
      match rstrip s' with
      | EmptyString => if is_space c then EmptyString else String c EmptyString
      | r => String c r
      end
  end.

(** [s.split(sep)] for a one-character separator: never an empty list. *)
Fixpoint split (sep : ascii) (s : string) : list string :=
  match s with
  | EmptyString => [EmptyString]
  | String c s' =>
      if Ascii.eqb c sep then EmptyString :: split sep s'
      else
        match split sep s' with
        | [] => [String c EmptyString]
        | field :: fields => String c field :: fields
        end
  end.

(** [sep.join(l)] *)
Fixpoint join (sep : string) (l : list string) : string :=
  match l with
  | [] => EmptyString
  | [x] => x
  | x :: xs => (x ++ sep ++ join sep xs)%string
  end.

(** [str(n)] for a non-negative integer. *)
Definition str_of_nat (n : nat) : string := NilEmpty.string_of_uint (Nat.to_uint n).

(** ** [readClusters]

    The file system is a function from a file name to the lines of the
    file; a file that is not there raises [OSError]. *)

Definition filesystem := string -> option (list string).

(** The message of the [ValueError] that unpacking [n] values into
    [(sample, clust_id)] raises. *)
Definition unpack_error (n : nat) : exception :=
  if n <? 2 then
    ValueError ("not enough values to unpack (expected 2, got " ++ str_of_nat n ++ ")")%string
  else ValueError "too many values to unpack (expected 2)".

(** [clusters[clust_id].add(sample)] on a [defaultdict(set)] *)
Definition defaultdict_add (clust_id : string) (s : sample)
           (clusters : PyDict.t PySet.t) : PyDict.t PySet.t :=
  match PyDict.get clust_id clusters with
  | Some members => PyDict.set clust_id (PySet.add s members) clusters
  | None => PyDict.set clust_id (PySet.add s []) clusters
  end.

(** [line.rstrip().split(",")] *)
Definition fields (line : string) : list string := split "," (rstrip line).

Fixpoint read_rows (rows : list string) (clusters : PyDict.t PySet.t)
  : result (PyDict.t PySet.t) :=
  match rows with
  | [] => Ok clusters
  | line :: rest =>
      (* (sample, clust_id) = line.rstrip().split(",") *)
      match fields line with
      | [s; clust_id] => read_rows rest (defaultdict_add clust_id s clusters)
      | other => Raise (unpack_error (length other))
      end
  end.

Definition readClusters (fs : filesystem) (clustCSV : string)
  : result (PyDict.t PySet.t) :=
  match fs clustCSV with
  | None => Raise OSError
  | Some lines =>
      (* header = csv_file.readline() *)
      read_rows (tl lines) []
  end.

(** A row is well formed when it has exactly two comma-separated fields. *)
Definition well_formed_row (line : string) : bool := length (fields line) =? 2.

(** The first malformed row of a file, with its line number (the header
    is line 1). *)
Fixpoint first_malformed_from (n : nat) (rows : list string) : option (nat * string) :=
  match rows with
  | [] => None
  | line :: rest =>
      if well_formed_row line then first_malformed_from (S n) rest else Some (n, line)
  end.

Definition first_malformed (lines : list string) : option (nat * string) :=
  first_malformed_from 2 (tl lines).

(** [s] carries the id [clust_id] in [clusters]. *)
Definition carries (clusters : PyDict.t PySet.t) (clust_id : string) (s : sample) : Prop :=
  exists members, PyDict.get clust_id clusters = Some members /\ In s members.

(** ** [printClusters] *)

(** The values [cls_id] takes: [None], an integer or a string. *)
Inductive cluster_id : Type :=
| IdNone
| IdInt (n : nat)
| IdStr (s : string).

Definition str (c : cluster_id) : string :=
  match c with
  | IdNone => "None"
  | IdInt n => str_of_nat n
  | IdStr s => s
  end.

(** Samples in the previous clustering. *)
Definition old_names (oldClusters : PyDict.t PySet.t) : PySet.t :=
  fold_left (fun oldNames prev => PySet.update oldNames (snd prev)) oldClusters [].

(** The search through the old cluster IDs for one new cluster: the loop
    over [oldClusters.items()], from the value [cls_id] has so far. *)
Fixpoint scan_old (ref_only : PySet.t) (oldClusters : PyDict.t PySet.t)
         (cls_id : option string) : result (option string) :=
  match oldClusters with
  | [] => Ok cls_id
  | (oldClusterName, oldClusterMembers) :: rest =>
      let join := PySet.inter ref_only oldClusterMembers in
      if 0 <? PySet.len join then
        if PySet.len join <? PySet.len ref_only then
          (* Query has merged clusters *)
          match cls_id with
          | None => scan_old ref_only rest (Some oldClusterName)
          | Some c => scan_old ref_only rest (Some (c ++ "_" ++ oldClusterName)%string)
          end
        else if PySet.len join =? PySet.len ref_only then
          (* Exact match -> same name as before *)
          match cls_id with
          | None => Ok (Some oldClusterName)
          | Some _ => Raise AssertionError
          end
        else scan_old ref_only rest cls_id
      else scan_old ref_only rest cls_id
  end.

(** How a previous cluster meets [ref_only]: [join] non-empty and smaller
    than [ref_only], or non-empty and as large. *)
Definition overlap (ref_only members : PySet.t) : nat :=
  PySet.len (PySet.inter ref_only members).

Definition partial_match (ref_only members : PySet.t) : bool :=
  (0 <? overlap ref_only members) && (overlap ref_only members <? PySet.len ref_only).

Definition exact_match (ref_only members : PySet.t) : bool :=
  (0 <? overlap ref_only members) && (overlap ref_only members =? PySet.len ref_only).

(** The composite identifier built from [cls_id] by the merge
    contributors [names], in scan order. *)
Definition composite (cls_id : option string) (names : list string) : option string :=
  fold_left (fun c name =>
               match c with
               | None => Some name
               | Some c => Some (c ++ "_" ++ name)%string
               end) names cls_id.

Definition of_scan (c : option string) : cluster_id :=
  match c with
  | None => IdNone
  | Some s => IdStr s
  end.

(** [for cluster_member in newCluster: clustering[cluster_member] = cls_id] *)
Definition assign_members (newCluster : PySet.t) (cls_id : cluster_id)
           (clustering : PyDict.t cluster_id) : PyDict.t cluster_id :=
  fold_left (fun d member => PyDict.set member cls_id d) newCluster clustering.

(** The body of the loop that names the new clusters, for one cluster:
    its id, the next value of [new_id] and what is appended to
    [new_ref_db].  [old] is the previous clustering with its names when
    [oldClusterFile] is given. *)
Definition name_cluster (old : option (PyDict.t PySet.t * PySet.t))
           (newClsIdx new_id : nat) (newCluster : PySet.t)
  : result (cluster_id * nat * list sample) :=
  match old with
  | Some (oldClusters, oldNames) =>
      (* Samples in this cluster that are not queries *)
      let ref_only := PySet.inter oldNames newCluster in
      if PySet.len ref_only =? 0 then
        (* A cluster with no previous observations *)
        match newCluster with
        | [] => Raise IndexError
        | first :: _ => Ok (IdInt new_id, S new_id, [first])
        end
      else
        (* Search through old cluster IDs to find a match *)
        cls_id <- scan_old ref_only oldClusters None ;;
        Ok (of_scan cls_id, new_id, [])
  | None =>
      (* Otherwise just number sequentially *)
      Ok (IdInt newClsIdx, new_id, [])
  end.

(** The loop over [enumerate(newClusters)]. *)
Fixpoint name_clusters (old : option (PyDict.t PySet.t * PySet.t))
         (newClsIdx new_id : nat) (newClusters : list PySet.t)
         (clustering : PyDict.t cluster_id) (new_ref_db : list sample)
  : result (PyDict.t cluster_id * list sample) :=
  match newClusters with
  | [] => Ok (clustering, new_ref_db)
  | newCluster :: rest =>
      '(cls_id, new_id', refs) <- name_cluster old newClsIdx new_id newCluster ;;
      name_clusters old (S newClsIdx) new_id' rest
        (assign_members newCluster cls_id clustering) (new_ref_db ++ refs)
  end.

(** [operator.itemgetter(0)] on a name: its first character. *)
Definition itemgetter0 (s : string) : result ascii :=
  match s with
  | EmptyString => Raise IndexError
  | String c _ => Ok c
  end.

Definition first_code (s : string) : nat :=
  match s with
  | EmptyString => 0
  | String c _ => nat_of_ascii c
  end.

(** [sorted(clustering, key=operator.itemgetter(0))]: the keys of the
    dict, every key function call made before any comparison. *)
Definition sorted_by_itemgetter0 (names : list string) : result (list string) :=
  if existsb (fun s => String.eqb s EmptyString) names then Raise IndexError
  else Ok (sorted (fun x y => first_code x <=? first_code y) names).

Definition csv_row (clustering : PyDict.t cluster_id) (cluster_member : string) : string :=
  let cls := match PyDict.get cluster_member clustering with
             | Some c => c
             | None => IdNone
             end in
  (join "," [cluster_member; str cls] ++ newline)%string.

(** The lines written to [outFileName]. *)
Definition cluster_file (clustering : PyDict.t cluster_id) (printRef : bool)
           (old : option (PyDict.t PySet.t * PySet.t)) : result (list string) :=
  members <- sorted_by_itemgetter0 (PyDict.keys clustering) ;;
  let printed cluster_member :=
    printRef || match old with
                | Some (_, oldNames) => PySet.mem cluster_member oldNames
                | None => false
                end in
  Ok (("Taxon,Cluster" ++ newline)%string
        :: map (csv_row clustering) (filter printed members)).

(** The first part of [printClusters]: the components, the previous
    clustering and the naming loop. *)
Definition load_previous (fs : filesystem) (oldClusterFile : option string)
  : result (option (PyDict.t PySet.t * PySet.t)) :=
  match oldClusterFile with
  | None => Ok None
  | Some f =>
      oldClusters <- readClusters fs f ;;
      Ok (Some (oldClusters, old_names oldClusters))
  end.

Definition first_new_id (old : option (PyDict.t PySet.t * PySet.t)) : nat :=
  match old with
  | Some (oldClusters, _) => length oldClusters
  | None => 0
  end.

Definition newClusters_of (G : Graph) : list PySet.t :=
  sorted_by_len_desc (connected_components G).

(** The first part of [printClusters], up to the end of the naming loop:
    the previous clustering that was read, the clustering and
    [new_ref_db]. *)
Definition label_clusters (fs : filesystem) (G : Graph) (oldClusterFile : option string)
  : result (option (PyDict.t PySet.t * PySet.t) * PyDict.t cluster_id * list sample) :=
  let newClusters := newClusters_of G in
  old <- load_previous fs oldClusterFile ;;
  '(clustering, new_ref_db) <-
    name_clusters old 0 (first_new_id old) newClusters [] [] ;;
  Ok (old, clustering, new_ref_db).

(** Returns the clustering, [new_ref_db], and the file written: its name
    and its lines. *)
Definition printClusters (fs : filesystem) (G : Graph) (outPrefix : string)
           (oldClusterFile : option string) (printRef : bool)
  : result (PyDict.t cluster_id * list sample * (string * list string)) :=
  if match oldClusterFile with None => negb printRef | Some _ => false end then
    Raise (RuntimeError "Trying to print query clusters with no query sequences")
  else
    '(old, clustering, new_ref_db) <- label_clusters fs G oldClusterFile ;;
    (* print clustering to file *)
    let outFileName := (outPrefix ++ "/" ++ outPrefix ++ "_clusters.csv")%string in
    lines <- cluster_file clustering printRef old ;;
    Ok (clustering, new_ref_db, (outFileName, lines)).

(** The ids the naming loop gives, cluster by cluster: the loop without
    the dict. *)
Fixpoint name_trace (old : option (PyDict.t PySet.t * PySet.t))
         (newClsIdx new_id : nat) (newClusters : list PySet.t)
  : result (list (PySet.t * cluster_id)) :=
  match newClusters with
  | [] => Ok []
  | newCluster :: rest =>
      '(cls_id, new_id', _) <- name_cluster old newClsIdx new_id newCluster ;;
      trace <- name_trace old (S newClsIdx) new_id' rest ;;
      Ok ((newCluster, cls_id) :: trace)
  end.

Definition assign_trace (trace : list (PySet.t * cluster_id))
           (clustering : PyDict.t cluster_id) : PyDict.t cluster_id :=
  fold_left (fun d ci => assign_members (fst ci) (snd ci) d) trace clustering.

(** The part of an id before its first underscore, and whether it has
    one. *)
Fixpoint first_part (s : string) : string :=
  match s with
  | EmptyString => EmptyString
  | String c s' => if Ascii.eqb c "_" then EmptyString else String c (first_part s')
  end.

Fixpoint has_underscore (s : string) : bool :=
  match s with
  | EmptyString => false
  | String c s' => Ascii.eqb c "_" || has_underscore s'
  end.

(** Two sets of names share a member. *)
Definition shares_member (a b : PySet.t) : Prop := exists x, In x a /\ In x b.

(** ** Inputs of the examples *)

(** The failing collaborator and the inputs of the example: one reference,
    one query linked to it and two queries linked to nothing. *)
Definition failing_queryDatabase (l : list sample)
  : result (list sample * list sample * unit) :=
  Raise (ExternalToolError "mash dist failed").

Definition example_model : ClusterModel unit := mkModel 1%Z (fun _ => Ok []).

Definition example_world : world := mkWorld (add_nodes_from empty_graph ["r1"]) [].


(** Two clustering files with a malformed row: line 3 of the first, line 2
    of the second. *)
Definition clustering_file_bad : filesystem :=
  fun name =>
    if String.eqb name "clusters.csv" then
      Some ["Taxon,Cluster" ++ newline; "s1,0" ++ newline; "zzz" ++ newline]%string
    else None.

Definition clustering_file_bad' : filesystem :=
  fun name =>
    if String.eqb name "clusters.csv" then
      Some ["Taxon,Cluster" ++ newline; "a" ++ newline]%string
    else None.

(** A triangle s1, s2, s3 with the pendant edge s3-s4. *)
Definition example_cliques_graph : Graph :=
  add_edges_from (add_nodes_from empty_graph ["s1"; "s2"; "s3"; "s4"])
    [("s1", "s2"); ("s2", "s3"); ("s1", "s3"); ("s3", "s4")].

(** The merge scenario: previous clusters 0 = {s1, s2} and 1 = {s3}, and a
    network in which the query q1 links s1, s2 and s3. *)
Definition previous_clustering_file : filesystem :=
  fun name =>
    if String.eqb name "old_clusters.csv" then
      Some ["Taxon,Cluster" ++ newline; "s1,0" ++ newline; "s2,0" ++ newline;
            "s3,1" ++ newline]%string
    else None.

Definition merge_graph : Graph :=
  add_edges_from (add_nodes_from empty_graph ["s1"; "s2"; "s3"; "q1"])
    [("s1", "s2"); ("s1", "q1"); ("q1", "s3")].

(** Previous clusterings in which s1 stands in two clusters, and the
    network of the single edge s1-s2. *)
Definition overlapping_file : filesystem :=
  fun name =>
    if String.eqb name "old_clusters.csv" then
      Some ["Taxon,Cluster" ++ newline; "s1,0" ++ newline; "s2,0" ++ newline;
            "s1,1" ++ newline]%string
    else None.

Definition overlapping_file' : filesystem :=
  fun name =>
    if String.eqb name "old_clusters.csv" then
      Some ["Taxon,Cluster" ++ newline; "s1,0" ++ newline; "s1,1" ++ newline;
            "s2,1" ++ newline]%string
    else None.

Definition pair_graph : Graph :=
  add_edges_from (add_nodes_from empty_graph ["s1"; "s2"]) [("s1", "s2")].

(** A network whose names share their first character: the edge ab-ac
    and the isolated node aa. *)
Definition no_files : filesystem := fun _ => None.

Definition same_initial_graph : Graph :=
  add_edges_from (add_nodes_from empty_graph ["ab"; "ac"; "aa"]) [("ab", "ac")].

(** The previous cluster 0 = {s1, s2}, and two networks on s1 and s2
    without an edge between them: one in which s1 and s2 are isolated
    and one in which each is linked to a query of its own. *)
Definition split_file : filesystem :=
  fun name =>
    if String.eqb name "old_clusters.csv" then
      Some ["Taxon,Cluster" ++ newline; "s1,0" ++ newline; "s2,0" ++ newline]%string
    else None.

Definition split_graph : Graph := add_nodes_from empty_graph ["s1"; "s2"].

(** The previous clusters 0 = {s1, s2} and 1 = {s3} in a network where
    they stay apart and a query q1 joins s3. *)
Definition apart_graph : Graph :=
  add_edges_from (add_nodes_from empty_graph ["s1"; "s2"; "s3"; "q1"])
    [("s1", "s2"); ("s3", "q1")].

(** ** Further notions used in the properties below *)



(** Two nodes are connected when a path of edges between nodes leads
    from one to the other. *)
Inductive connected (G : Graph) : sample -> sample -> Prop :=
| connected_refl (v : sample) : In v (nodes G) -> connected G v v
| connected_step (u v w : sample) :
    connected G u v -> In w (nodes G) -> has_edge G v w = true -> connected G u w.






Definition is_digit (c : ascii) : bool :=
  (48 <=? nat_of_ascii c) && (nat_of_ascii c <=? 57).

Fixpoint all_digits (s : string) : bool :=
  match s with
  | EmptyString => true
  | String c s' => is_digit c && all_digits s'
  end.




(** Previous clusterings whose ids clash with ids made later: the ids 1
    and 2 for two clusters, so that the first fresh id is 2 as well; and
    the ids 0_1, 0 and 1, so that the merge of 0 and 1 is named like the
    first cluster. *)
Definition shifted_ids_file : filesystem :=
  fun name =>
    if String.eqb name "old_clusters.csv" then
      Some ["Taxon,Cluster" ++ newline; "s1,1" ++ newline; "s2,2" ++ newline]%string
    else None.

Definition shifted_ids_graph : Graph := add_nodes_from empty_graph ["s1"; "s2"; "q1"].

Definition merged_ids_file : filesystem :=
  fun name =>
    if String.eqb name "old_clusters.csv" then
      Some ["Taxon,Cluster" ++ newline; "s1,0_1" ++ newline; "s2,0" ++ newline;
            "s3,1" ++ newline]%string
    else None.

Definition merged_ids_graph : Graph :=
  add_edges_from (add_nodes_from empty_graph ["s1"; "s2"; "s3"]) [("s2", "s3")].
(** * Properties *)

(** ** Sets, dicts and graphs *)

Lemma mem_In (x : sample) (s : PySet.t) : PySet.mem x s = true <-> In x s.
Proof.
  unfold PySet.mem. rewrite existsb_exists. split.
  - intros [y [Hy He]]. apply String.eqb_eq in He. now subst.
  - intros H. exists x. split; [assumption | apply String.eqb_refl].
Qed.

Lemma mem_false (x : sample) (s : PySet.t) : PySet.mem x s = false <-> ~ In x s.
Proof.
  rewrite <- mem_In. destruct (PySet.mem x s); split; congruence.
Qed.

Lemma In_add (x y : sample) (s : PySet.t) :
  In y (PySet.add x s) <-> In y s \/ y = x.
Proof.
  unfold PySet.add. destruct (PySet.mem x s) eqn:E.
  - apply mem_In in E. split; [now left | intros [H | ->]; assumption].
  - rewrite in_app_iff. simpl. intuition congruence.
Qed.

Lemma NoDup_add (x : sample) (s : PySet.t) : NoDup s -> NoDup (PySet.add x s).
Proof.
  intros H. unfold PySet.add. destruct (PySet.mem x s) eqn:E; [assumption |].
  apply mem_false in E. apply NoDup_app; [assumption | repeat constructor; auto |].
  intros a Ha [<- | []]. contradiction.
Qed.

Lemma In_update (s : PySet.t) (l : list sample) (y : sample) :
  In y (PySet.update s l) <-> In y s \/ In y l.
Proof.
  unfold PySet.update. revert s. induction l as [| x l IH]; intros s; simpl.
  - tauto.
  - rewrite IH, In_add. intuition congruence.
Qed.

Lemma NoDup_update (s : PySet.t) (l : list sample) :
  NoDup s -> NoDup (PySet.update s l).
Proof.
  unfold PySet.update. revert s. induction l as [| x l IH]; intros s H; simpl.
  - assumption.
  - apply IH, NoDup_add, H.
Qed.



Lemma In_inter (a b : PySet.t) (y : sample) :
  In y (PySet.inter a b) <-> In y a /\ In y b.
Proof.
  unfold PySet.inter. rewrite filter_In, mem_In. tauto.
Qed.


Lemma has_edge_In (G : Graph) (u v : sample) :
  has_edge G u v = true <-> In (u, v) (edges G) \/ In (v, u) (edges G).
Proof.
  unfold has_edge. rewrite existsb_exists. split.
  - intros [[a b] [Hin H]]. simpl in H.
    apply orb_true_iff in H. destruct H as [H | H];
      apply andb_true_iff in H; destruct H as [H1 H2];
      apply String.eqb_eq in H1, H2; subst; auto.
  - intros [H | H]; eexists; (split; [exact H |]); simpl;
      rewrite !String.eqb_refl; simpl; auto using orb_true_r.
Qed.

Lemma has_edge_sym (G : Graph) (u v : sample) : has_edge G u v = has_edge G v u.
Proof.
  apply eq_true_iff_eq. rewrite !has_edge_In. tauto.
Qed.

Lemma nodes_add_nodes_from (l : list sample) (G : Graph) (y : sample) :
  In y (nodes (add_nodes_from G l)) <-> In y (nodes G) \/ In y l.
Proof.
  unfold add_nodes_from. revert G. induction l as [| x l IH]; intros G; simpl.
  - tauto.
  - rewrite IH. simpl. rewrite In_add. intuition congruence.
Qed.

Lemma edges_add_nodes_from (l : list sample) (G : Graph) :
  edges (add_nodes_from G l) = edges G.
Proof.
  unfold add_nodes_from. revert G. induction l as [| x l IH]; intros G; simpl.
  - reflexivity.
  - now rewrite IH.
Qed.

Lemma has_edge_add_nodes_from (l : list sample) (G : Graph) (u v : sample) :
  has_edge (add_nodes_from G l) u v = has_edge G u v.
Proof.
  unfold has_edge. now rewrite edges_add_nodes_from.
Qed.

Lemma nodes_add_edge (G : Graph) (e : sample * sample) (y : sample) :
  In y (nodes (add_edge G e)) <-> In y (nodes G) \/ y = fst e \/ y = snd e.
Proof.
  unfold add_edge. destruct (has_edge G (fst e) (snd e)); simpl;
    rewrite !In_add; tauto.
Qed.

Lemma has_edge_add_edge (G : Graph) (e : sample * sample) (u v : sample) :
  has_edge (add_edge G e) u v = true <->
  has_edge G u v = true \/ e = (u, v) \/ e = (v, u).
Proof.
  unfold add_edge. destruct (has_edge G (fst e) (snd e)) eqn:E.
  - rewrite !has_edge_In. simpl. rewrite has_edge_In in E.
    destruct e as [a b]; simpl in E.
    split; [tauto |]. intros [H | [H | H]]; [tauto | |]; inversion H; subst; tauto.
  - rewrite !has_edge_In. simpl. rewrite !in_app_iff. simpl.
    intuition congruence.
Qed.

Lemma nodes_add_edges_from (l : list (sample * sample)) (G : Graph) (y : sample) :
  In y (nodes (add_edges_from G l)) <->
  In y (nodes G) \/ exists e, In e l /\ (y = fst e \/ y = snd e).
Proof.
  unfold add_edges_from. revert G. induction l as [| e l IH]; intros G; simpl.
  - split; [tauto | intros [H | [e [[] _]]]; assumption].
  - rewrite IH, nodes_add_edge. split.
    + intros [[H | H] | [e' [H1 H2]]]; eauto 6.
    + intros [H | [e' [[<- | H1] H2]]]; eauto 6.
Qed.

Lemma has_edge_add_edges_from (l : list (sample * sample)) (G : Graph) (u v : sample) :
  has_edge (add_edges_from G l) u v = true <->
  has_edge G u v = true \/ In (u, v) l \/ In (v, u) l.
Proof.
  unfold add_edges_from. revert G. induction l as [| e l IH]; intros G; simpl.
  - tauto.
  - rewrite IH, has_edge_add_edge. intuition congruence.
Qed.

(** ** [constructNetwork] *)

Lemma In_combine_nth_error (A B : Type) (l : list A) (l' : list B) (x : A) (y : B) :
  In (x, y) (combine l l') <->
  exists i, nth_error l i = Some x /\ nth_error l' i = Some y.
Proof.
  revert l'. induction l as [| a l IH]; intros [| b l']; simpl.
  - split; [tauto | intros [[| i] [H _]]; discriminate].
  - split; [tauto | intros [[| i] [H _]]; discriminate].
  - split; [tauto | intros [[| i] [_ H]]; discriminate].
  - rewrite IH. split.
    + intros [H | [i Hi]].
      * inversion H; subst. now exists 0.
      * now exists (S i).
    + intros [[| i] [H1 H2]]; simpl in H1, H2.
      * left. congruence.
      * right. now exists i.
Qed.

(** A pair is a connection exactly when the enumeration has it at a
    position where the assignment is the within-strain label. *)
Lemma within_pairs_In (assignments : list Z) (pairs : list (sample * sample))
      (within : Z) (e : sample * sample) :
  In e (within_pairs assignments pairs within) <->
  exists i, nth_error assignments i = Some within /\ nth_error pairs i = Some e.
Proof.
  unfold within_pairs. rewrite in_map_iff. split.
  - intros [[a e'] [He H]]. simpl in He. subst e'.
    apply filter_In in H. destruct H as [H Ha]. simpl in Ha.
    apply Z.eqb_eq in Ha. subst a.
    now apply In_combine_nth_error in H.
  - intros H. exists (within, e). split; [reflexivity |].
    apply filter_In. split.
    + now apply In_combine_nth_error.
    + simpl. apply Z.eqb_refl.
Qed.

(** C10. With an empty reference list the density computation divides by
    zero: [constructNetwork] raises [ZeroDivisionError] and returns no
    graph, whatever the queries, the assignments and the pair
    enumeration are. *)
Theorem constructNetwork_empty_rlist
        (iterDistRows : list sample -> list sample -> bool -> list (sample * sample))
        (qlist : list sample) (assignments : list Z) (within : Z) :
  constructNetwork iterDistRows [] qlist assignments within = Raise ZeroDivisionError.
Proof.
  reflexivity.
Qed.

Lemma constructNetwork_nonempty
      (iterDistRows : list sample -> list sample -> bool -> list (sample * sample))
      (rlist qlist : list sample) (assignments : list Z) (within : Z) :
  rlist <> [] ->
  exists warned,
    constructNetwork iterDistRows rlist qlist assignments within =
    Ok (add_edges_from (add_nodes_from empty_graph rlist)
          (within_pairs assignments (iterDistRows rlist qlist true) within), warned).
Proof.
  intros H. unfold constructNetwork.
  destruct rlist as [| r rlist]; [congruence |].
  simpl length. simpl Nat.mul. simpl Nat.eqb. cbv iota.
  eexists. reflexivity.
Qed.

(** C4, as the code has it.  For a non-empty reference list
    [constructNetwork] returns a graph whose nodes are the reference
    samples, isolated or not, together with the endpoints of the
    connections; a query sample that is no reference is a node only as
    such an endpoint.  Its edges are exactly the enumerated pairs whose
    assignment is the within-strain label. *)
Theorem constructNetwork_nodes_and_edges
        (iterDistRows : list sample -> list sample -> bool -> list (sample * sample))
        (rlist qlist : list sample) (assignments : list Z) (within : Z)
        (Hr : rlist <> []) :
  exists G warned,
    constructNetwork iterDistRows rlist qlist assignments within = Ok (G, warned) /\
    (forall x, In x rlist -> In x (nodes G)) /\
    (forall x, In x (nodes G) <->
               In x rlist \/
               exists i r q,
                 nth_error assignments i = Some within /\
                 nth_error (iterDistRows rlist qlist true) i = Some (r, q) /\
                 (x = r \/ x = q)) /\
    (forall u v, has_edge G u v = true <->
                 exists i,
                   nth_error assignments i = Some within /\
                   (nth_error (iterDistRows rlist qlist true) i = Some (u, v) \/
                    nth_error (iterDistRows rlist qlist true) i = Some (v, u))).
Proof.
  destruct (constructNetwork_nonempty iterDistRows qlist assignments within Hr)
    as [warned E].
  eexists. exists warned. split; [exact E |].
  assert (Hn : forall x,
             In x (nodes (add_edges_from (add_nodes_from empty_graph rlist)
                            (within_pairs assignments (iterDistRows rlist qlist true) within)))
             <-> In x rlist \/
                 exists i r q,
                   nth_error assignments i = Some within /\
                   nth_error (iterDistRows rlist qlist true) i = Some (r, q) /\
                   (x = r \/ x = q)).
  { intros x. rewrite nodes_add_edges_from, nodes_add_nodes_from. simpl. split.
    - intros [[[] | H] | [[r q] [H1 H2]]]; [now left |].
      right. apply within_pairs_In in H1. destruct H1 as [i [Ha Hp]].
      exists i, r, q. auto.
    - intros [H | [i [r [q [Ha [Hp Hx]]]]]]; [auto |].
      right. exists (r, q). split; [| exact Hx].
      apply within_pairs_In. eauto. }
  split; [| split].
  - intros x Hx. apply Hn. now left.
  - exact Hn.
  - intros u v. rewrite has_edge_add_edges_from, has_edge_add_nodes_from.
    rewrite !within_pairs_In. split.
    + intros [H | [[i [Ha Hp]] | [i [Ha Hp]]]]; [discriminate | |]; eauto.
    + intros [i [Ha [Hp | Hp]]]; eauto.
Qed.

(** A run of [constructNetwork] on two references that are linked. *)
Lemma constructNetwork_nodes_and_edges_witness :
  exists G warned,
    constructNetwork iterDistRows_spec ["r1"; "r2"] [] [0; 1; 0]%Z 1%Z = Ok (G, warned) /\
    In "r2" (nodes G) /\ has_edge G "r1" "r2" = true.
Proof.
  destruct (@constructNetwork_nodes_and_edges iterDistRows_spec ["r1"; "r2"] []
              [0; 1; 0]%Z 1%Z) as [G [warned [E [Hr [_ He]]]]].
  - discriminate.
  - exists G, warned. split; [exact E |]. split.
    + apply Hr. simpl. auto.
    + apply He. exists 1. split; [reflexivity | left; reflexivity].
Defined.

(** A query that is linked to nothing is not a node of the graph that
    [constructNetwork] returns. *)
Lemma constructNetwork_isolated_query_missing :
  exists G warned,
    constructNetwork iterDistRows_spec ["r1"] ["q1"] [0; 0; 0]%Z 1%Z = Ok (G, warned) /\
    In "q1" ["q1"] /\ ~ In "q1" (nodes G).
Proof.
  eexists. eexists. split; [reflexivity |]. split; [simpl; auto |].
  simpl. intros [H | []]. discriminate.
Qed.

(** ** [addQueryToNetwork] *)

Section AddQueryFacts.
Variable iterDistRows : list sample -> list sample -> bool -> list (sample * sample).
Variable DistMat : Type.
Variable queryDatabase : list sample -> result (list sample * list sample * DistMat).

(** When no batch is needed or the batch succeeds, every query is a
    node and every direct edge is an edge afterwards. *)
Lemma addQueryToNetwork_commits (rlist qlist : list sample) (w w' : world)
      (assignments : list Z) (model : ClusterModel DistMat) (dbPrefix : string) :
  addQueryToNetwork iterDistRows queryDatabase rlist qlist w assignments model dbPrefix
  = (w', Ok tt) ->
  (forall q, In q qlist -> In q (nodes (net w'))) /\
  (forall r q, In (r, q) (direct_edges iterDistRows rlist qlist assignments model) ->
               has_edge (net w') r q = true).
Proof.
  unfold addQueryToNetwork.
  destruct (1 <? _).
  - destruct (novel_batch _ _ _) as [[[q1 q2] qa] | e]; [| discriminate].
    intros H. inversion H; subst; clear H. simpl. split.
    + intros q Hq. apply nodes_add_edges_from. left.
      apply nodes_add_nodes_from. now right.
    + intros r q Hrq. apply has_edge_add_edges_from. right. left.
      apply in_app_iff. now left.
  - intros H. inversion H; subst; clear H. simpl. split.
    + intros q Hq. apply nodes_add_edges_from. left.
      apply nodes_add_nodes_from. now right.
    + intros r q Hrq. apply has_edge_add_edges_from. right. now left.
Qed.
End AddQueryFacts.

(** C3, as the code has it.  When more than one query is unassigned and
    the batch distance or classification call fails, the exception leaves
    [addQueryToNetwork] before anything is committed: the network is the
    one that was passed in, without the direct edges of step 1 and
    without the query nodes, and the scratch directory is still there. *)
Theorem addQueryToNetwork_batch_failure
        (iterDistRows : list sample -> list sample -> bool -> list (sample * sample))
        (DistMat : Type)
        (queryDatabase : list sample -> result (list sample * list sample * DistMat))
        (rlist qlist : list sample) (w : world) (assignments : list Z)
        (model : ClusterModel DistMat) (dbPrefix : string) (e : exception)
        (Hmany : 1 < PySet.len (unassigned_queries qlist
                                  (direct_edges iterDistRows rlist qlist assignments model)))
        (Hfail : novel_batch queryDatabase model
                   (unassigned_queries qlist
                      (direct_edges iterDistRows rlist qlist assignments model))
                 = Raise e) :
  exists w',
    addQueryToNetwork iterDistRows queryDatabase rlist qlist w assignments model dbPrefix
    = (w', Raise e) /\
    net w' = net w /\
    scratch w' = (dbPrefix ++ "_tmp")%string :: scratch w.
Proof.
  unfold addQueryToNetwork.
  apply Nat.ltb_lt in Hmany. rewrite Hmany, Hfail.
  eexists. split; [reflexivity |]. split; reflexivity.
Qed.

Lemma addQueryToNetwork_batch_failure_witness :
  exists w',
    addQueryToNetwork iterDistRows_spec failing_queryDatabase ["r1"] ["q1"; "q2"; "q3"]
      example_world [1; 0; 0]%Z example_model "db"
    = (w', Raise (ExternalToolError "mash dist failed")) /\
    net w' = net example_world /\
    scratch w' = ["db_tmp"].
Proof.
  apply (@addQueryToNetwork_batch_failure iterDistRows_spec unit failing_queryDatabase
           ["r1"] ["q1"; "q2"; "q3"] example_world [1; 0; 0]%Z example_model "db").
  - vm_compute. lia.
  - reflexivity.
Defined.

(** The direct edge (r1, q1) of step 1 is recorded, the batch call for
    q2 and q3 fails, and the network afterwards has neither the edge nor
    the node q1. *)
Lemma addQueryToNetwork_direct_edges_lost :
  In ("r1", "q1")
     (direct_edges iterDistRows_spec ["r1"] ["q1"; "q2"; "q3"] [1; 0; 0]%Z example_model) /\
  exists w',
    addQueryToNetwork iterDistRows_spec failing_queryDatabase ["r1"] ["q1"; "q2"; "q3"]
      example_world [1; 0; 0]%Z example_model "db"
    = (w', Raise (ExternalToolError "mash dist failed")) /\
    has_edge (net w') "r1" "q1" = false /\
    has_node (net w') "q1" = false.
Proof.
  split; [simpl; auto |].
  eexists. split; [reflexivity |]. split; reflexivity.
Qed.

(** ** [readClusters] *)

Lemma get_set (V : Type) (k k' : string) (v : V) (d : PyDict.t V) :
  PyDict.get k' (PyDict.set k v d) = if String.eqb k' k then Some v else PyDict.get k' d.
Proof.
  induction d as [| [k0 v0] d IH]; simpl.
  - reflexivity.
  - destruct (String.eqb k k0) eqn:E; simpl.
    + apply String.eqb_eq in E. subst k0.
      now destruct (String.eqb k' k).
    + rewrite IH. destruct (String.eqb k' k0) eqn:E0; [| reflexivity].
      apply String.eqb_eq in E0. subst k0.
      rewrite String.eqb_sym in E. now rewrite E.
Qed.

Lemma carries_defaultdict_add (clusters : PyDict.t PySet.t) (id id' : string)
      (s s' : sample) :
  carries (defaultdict_add id s clusters) id' s' <->
  carries clusters id' s' \/ (id' = id /\ s' = s).
Proof.
  unfold carries, defaultdict_add.
  destruct (PyDict.get id clusters) as [members |] eqn:E;
    setoid_rewrite get_set; destruct (String.eqb id' id) eqn:Eid.
  - apply String.eqb_eq in Eid. subst id'. rewrite E. split.
    + intros [m [Hm Hin]]. inversion Hm; subst. apply In_add in Hin.
      destruct Hin as [Hin | ->]; [left; eauto | right; auto].
    + intros [[m [Hm Hin]] | [_ ->]]; eexists; (split; [reflexivity |]);
        apply In_add; [left; congruence | now right].
  - apply String.eqb_neq in Eid. split; [now left | intros [H | [H _]]; [exact H | contradiction]].
  - apply String.eqb_eq in Eid. subst id'. rewrite E. split.
    + intros [m [Hm Hin]]. inversion Hm; subst. apply In_add in Hin.
      destruct Hin as [[] | ->]. right; auto.
    + intros [[m [Hm _]] | [_ ->]]; [discriminate |].
      eexists. split; [reflexivity |]. apply In_add. now right.
  - apply String.eqb_neq in Eid. split; [now left | intros [H | [H _]]; [exact H | contradiction]].
Qed.

Lemma well_formed_row_fields (line : string) :
  well_formed_row line = true <-> exists s id, fields line = [s; id].
Proof.
  unfold well_formed_row. rewrite Nat.eqb_eq. split.
  - destruct (fields line) as [| s [| id [| x l]]]; simpl; try discriminate. eauto.
  - intros [s [id ->]]. reflexivity.
Qed.

(** The rows before the first malformed one do not matter, nor do the
    rows after it. *)
Lemma read_rows_malformed (pre post : list string) (bad : string)
      (clusters : PyDict.t PySet.t) :
  Forall (fun line => well_formed_row line = true) pre ->
  well_formed_row bad = false ->
  read_rows (pre ++ bad :: post) clusters = Raise (unpack_error (length (fields bad))).
Proof.
  intros Hpre Hbad. revert clusters.
  induction Hpre as [| line pre Hline _ IH]; intros clusters; simpl.
  - unfold well_formed_row in Hbad. apply Nat.eqb_neq in Hbad.
    destruct (fields bad) as [| s [| id [| x l]]]; simpl in *; try reflexivity.
    congruence.
  - apply well_formed_row_fields in Hline. destruct Hline as [s [id ->]]. apply IH.
Qed.

Lemma read_rows_well_formed (rows : list string) (clusters : PyDict.t PySet.t) :
  Forall (fun line => well_formed_row line = true) rows ->
  exists clusters',
    read_rows rows clusters = Ok clusters' /\
    forall id s, carries clusters' id s <->
                 carries clusters id s \/ exists line, In line rows /\ fields line = [s; id].
Proof.
  intros Hrows. revert clusters.
  induction Hrows as [| line rows Hline _ IH]; intros clusters; simpl.
  - exists clusters. split; [reflexivity |]. intros id s.
    split; [now left | intros [H | [line [[] _]]]; exact H].
  - apply well_formed_row_fields in Hline. destruct Hline as [s0 [id0 E]]. rewrite E.
    destruct (IH (defaultdict_add id0 s0 clusters)) as [clusters' [Hr Hc]].
    exists clusters'. split; [exact Hr |]. intros id s.
    rewrite Hc, carries_defaultdict_add. split.
    + intros [[H | [-> ->]] | [l [Hl Hf]]]; eauto.
    + intros [H | [l [[<- | Hl] Hf]]]; eauto.
      rewrite E in Hf. inversion Hf; subst. auto.
Qed.

(** C9, as the code has it.  [readClusters] raises at the first data row
    that does not split into exactly two fields: a [ValueError] whose
    message depends on the number of fields only, not on the row or its
    line number.  When every data row is well formed it returns the
    mapping in which a sample carries an id exactly when some data row
    holds the pair. *)
Theorem readClusters_rows (fs : filesystem) (clustCSV : string) (lines : list string)
        (Hfile : fs clustCSV = Some lines) :
  (forall pre bad post,
      tl lines = pre ++ bad :: post ->
      Forall (fun line => well_formed_row line = true) pre ->
      well_formed_row bad = false ->
      readClusters fs clustCSV = Raise (unpack_error (length (fields bad)))) /\
  (Forall (fun line => well_formed_row line = true) (tl lines) ->
   exists clusters,
     readClusters fs clustCSV = Ok clusters /\
     forall id s, carries clusters id s <->
                  exists line, In line (tl lines) /\ fields line = [s; id]).
Proof.
  unfold readClusters. rewrite Hfile. split.
  - intros pre bad post -> Hpre Hbad. now apply read_rows_malformed.
  - intros Hall. destruct (read_rows_well_formed [] Hall) as [clusters [Hr Hc]].
    exists clusters. split; [exact Hr |]. intros id s. rewrite Hc. split.
    + intros [[m [Hm _]] | H]; [discriminate | exact H].
    + intros H. now right.
Qed.

Lemma readClusters_rows_witness :
  readClusters clustering_file_bad "clusters.csv"
  = Raise (ValueError "not enough values to unpack (expected 2, got 1)").
Proof.
  destruct (@readClusters_rows clustering_file_bad "clusters.csv"
              ["Taxon,Cluster" ++ newline; "s1,0" ++ newline; "zzz" ++ newline]%string
              eq_refl) as [H _].
  apply (H ["s1,0" ++ newline]%string ("zzz" ++ newline)%string []).
  - reflexivity.
  - repeat constructor.
  - reflexivity.
Defined.

(** Two files whose first malformed rows differ in line number and in
    content raise the same exception: the exception does not tell which
    line is at fault. *)
Lemma readClusters_error_hides_line :
  readClusters clustering_file_bad "clusters.csv"
  = Raise (ValueError "not enough values to unpack (expected 2, got 1)") /\
  readClusters clustering_file_bad' "clusters.csv"
  = Raise (ValueError "not enough values to unpack (expected 2, got 1)") /\
  first_malformed ["Taxon,Cluster" ++ newline; "s1,0" ++ newline; "zzz" ++ newline]%string
  = Some (3, ("zzz" ++ newline)%string) /\
  first_malformed ["Taxon,Cluster" ++ newline; "a" ++ newline]%string
  = Some (2, ("a" ++ newline)%string).
Proof.
  repeat split; reflexivity.
Qed.

(** ** Sorting *)

Section SortFacts.
Variable A : Type.
Variable leb : A -> A -> bool.

Lemma insert_sorted_perm (x : A) (l : list A) :
  Permutation (x :: l) (insert_sorted leb x l).
Proof.
  induction l as [| y l IH]; simpl.
  - reflexivity.
  - destruct (leb x y); [reflexivity |].
    rewrite perm_swap. now constructor.
Qed.

Lemma sorted_perm (l : list A) : Permutation l (sorted leb l).
Proof.
  induction l as [| x l IH]; simpl.
  - constructor.
  - rewrite <- insert_sorted_perm. now constructor.
Qed.

Lemma sorted_In (l : list A) (x : A) : In x (sorted leb l) <-> In x l.
Proof.
  split; apply Permutation_in; [symmetry |]; apply sorted_perm.
Qed.

(** When [leb] compares keys, the result is ordered by the keys and
    elements with the same key keep their order. *)
Variable key : A -> nat.
Variable R : A -> A -> Prop.
Hypothesis leb_R : forall x y, leb x y = true -> R x y.
Hypothesis leb_total : forall x y, leb x y = false -> R y x /\ key x <> key y.
Hypothesis R_trans : forall x y z, R x y -> R y z -> R x z.

Lemma insert_sorted_Forall (P : A -> Prop) (x : A) (l : list A) :
  P x -> Forall P l -> Forall P (insert_sorted leb x l).
Proof.
  intros Hx Hl. eapply Permutation_Forall; [apply insert_sorted_perm |].
  now constructor.
Qed.

Lemma insert_sorted_StronglySorted (x : A) (l : list A) :
  StronglySorted R l -> StronglySorted R (insert_sorted leb x l).
Proof.
  induction 1 as [| y l Hl IH Hy]; simpl.
  - repeat constructor.
  - destruct (leb x y) eqn:E.
    + constructor; [now constructor |]. apply leb_R in E.
      constructor; [exact E |].
      eapply Forall_impl; [| exact Hy]. intros z Hz. now apply R_trans with y.
    + apply leb_total in E. destruct E as [E _].
      constructor; [exact IH |]. now apply insert_sorted_Forall.
Qed.

Lemma sorted_StronglySorted (l : list A) : StronglySorted R (sorted leb l).
Proof.
  induction l as [| x l IH]; simpl.
  - constructor.
  - now apply insert_sorted_StronglySorted.
Qed.

Lemma insert_sorted_stable (k : nat) (x : A) (l : list A) :
  filter (fun y => key y =? k) (insert_sorted leb x l)
  = filter (fun y => key y =? k) (x :: l).
Proof.
  induction l as [| y l IH]; simpl.
  - reflexivity.
  - destruct (leb x y) eqn:E; [reflexivity |].
    apply leb_total in E. destruct E as [_ E]. simpl. rewrite IH. simpl.
    destruct (key x =? k) eqn:Ex, (key y =? k) eqn:Ey; try reflexivity.
    apply Nat.eqb_eq in Ex, Ey. congruence.
Qed.

Lemma sorted_stable (k : nat) (l : list A) :
  filter (fun y => key y =? k) (sorted leb l) = filter (fun y => key y =? k) l.
Proof.
  induction l as [| x l IH]; simpl.
  - reflexivity.
  - rewrite insert_sorted_stable. simpl. now rewrite IH.
Qed.
End SortFacts.

(** ** [extractReferences] *)

(** The loop keeps the references it has and leaves one in every clique
    it has gone through. *)
Lemma choose_references_covers (cliques : list (list sample)) (references : list sample) :
  (forall c, In c cliques -> c <> []) ->
  exists references',
    choose_references cliques references = Ok references' /\
    incl references references' /\
    forall c, In c cliques -> exists r, In r references' /\ In r c.
Proof.
  revert references. induction cliques as [| clique rest IH]; intros references Hne; simpl.
  - exists references. split; [reflexivity |]. split; [apply incl_refl | intros c []].
  - assert (Hrest : forall c, In c rest -> c <> []) by (intros c Hc; apply Hne; now right).
    destruct (existsb (fun node => PySet.mem node references) clique) eqn:E.
    + destruct (IH references Hrest) as [refs' [Hr [Hincl Hcov]]].
      exists refs'. split; [exact Hr |]. split; [exact Hincl |].
      intros c [<- | Hc]; [| now apply Hcov].
      apply existsb_exists in E. destruct E as [node [Hnode Hmem]].
      apply mem_In in Hmem. exists node. split; [now apply Hincl | exact Hnode].
    + destruct clique as [| first clique'].
      * exfalso. apply (Hne []); [now left | reflexivity].
      * destruct (IH (references ++ [first]) Hrest) as [refs' [Hr [Hincl Hcov]]].
        exists refs'. split; [exact Hr |]. split.
        -- intros x Hx. apply Hincl, in_app_iff. now left.
        -- intros c [<- | Hc]; [| now apply Hcov].
           exists first. split; [| now left].
           apply Hincl, in_app_iff. right. now left.
Qed.

Lemma maximal_clique_same_members (G : Graph) (S S' : list sample) :
  same_members S' S -> maximal_clique G S -> maximal_clique G S'.
Proof.
  intros Hs [[Hne [Hnodes Hadj]] Hmax]. split; [split; [| split] |].
  - destruct S as [| x S]; [congruence |].
    intros ->. apply (proj2 (Hs x)). now left.
  - intros u Hu. apply Hnodes, Hs, Hu.
  - intros u v Hu Hv. apply Hadj; now apply Hs.
  - intros w Hw Hnot. destruct (Hmax w Hw) as [u [Hu He]].
    + intros H. apply Hnot, Hs, H.
    + exists u. split; [now apply Hs | exact He].
Qed.

(** C7, as the code has it.  Whatever list of the maximal cliques of
    the network [nx.find_cliques] yields, in whatever order,
    [extractReferences] returns a reference list and every maximal
    clique of the network contains one of the returned references. *)
Theorem extractReferences_covers_cliques
        (G : Graph) (cliques : list (list sample)) (outPrefix : string)
        (Hcliques : enumerates_maximal_cliques G cliques) :
  exists references refFileName lines,
    extractReferences cliques outPrefix = Ok (references, refFileName, lines) /\
    forall S, maximal_clique G S -> exists r, In r references /\ In r S.
Proof.
  destruct Hcliques as [Hsound Hcomplete].
  destruct (@choose_references_covers (sorted_by_len_desc cliques) [])
    as [refs [Hr [_ Hcov]]].
  { intros c Hc. apply sorted_In in Hc. apply Hsound in Hc.
    destruct Hc as [[Hne _] _]. exact Hne. }
  unfold extractReferences. rewrite Hr. simpl.
  do 3 eexists. split; [reflexivity |].
  intros S HS. destruct (Hcomplete S HS) as [c [Hc Hsame]].
  destruct (Hcov c) as [r [Hr1 Hr2]]; [now apply sorted_In |].
  exists r. split; [exact Hr1 | now apply Hsame].
Qed.

Lemma is_clique_b_spec (G : Graph) (S : list sample) :
  is_clique_b G S = true <-> is_clique G S.
Proof.
  unfold is_clique_b, is_clique, PySet.len.
  rewrite !andb_true_iff, negb_true_iff, Nat.eqb_neq, !forallb_forall.
  split.
  - intros [[Hne Hnodes] Hadj]. split; [| split].
    + intros ->. now apply Hne.
    + intros u Hu. apply mem_In, Hnodes, Hu.
    + intros u v Hu Hv Huv. specialize (Hadj u Hu).
      rewrite forallb_forall in Hadj. specialize (Hadj v Hv).
      apply orb_true_iff in Hadj. destruct Hadj as [H | H]; [| exact H].
      apply String.eqb_eq in H. contradiction.
  - intros [Hne [Hnodes Hadj]]. split; [split |].
    + destruct S; [congruence | discriminate].
    + intros u Hu. apply mem_In, Hnodes, Hu.
    + intros u Hu. apply forallb_forall. intros v Hv.
      destruct (String.eqb u v) eqn:E; [reflexivity |].
      apply String.eqb_neq in E. simpl. now apply Hadj.
Qed.

Lemma maximal_clique_b_spec (G : Graph) (S : list sample) :
  maximal_clique_b G S = true <-> maximal_clique G S.
Proof.
  unfold maximal_clique_b, maximal_clique.
  rewrite andb_true_iff, is_clique_b_spec, forallb_forall.
  split; intros [Hc Hmax]; (split; [exact Hc |]).
  - intros w Hw Hnot. specialize (Hmax w Hw).
    apply orb_true_iff in Hmax. destruct Hmax as [H | H].
    + apply mem_In in H. contradiction.
    + apply existsb_exists in H. destruct H as [u [Hu H]].
      apply negb_true_iff in H. eauto.
  - intros w Hw. destruct (PySet.mem w S) eqn:E; [reflexivity |].
    apply mem_false in E. destruct (Hmax w Hw E) as [u [Hu H]].
    simpl. apply existsb_exists. exists u. split; [exact Hu |].
    now apply negb_true_iff.
Qed.

Lemma filter_in_sublists (f : sample -> bool) (l : list sample) :
  In (filter f l) (sublists l).
Proof.
  induction l as [| x l IH]; simpl.
  - now left.
  - apply in_app_iff. destruct (f x).
    + left. now apply in_map.
    + now right.
Qed.

(** The reference enumeration meets what is asked of [nx.find_cliques]. *)
Lemma all_maximal_cliques_enumerates (G : Graph) :
  enumerates_maximal_cliques G (all_maximal_cliques G).
Proof.
  unfold all_maximal_cliques. split.
  - intros c Hc. apply filter_In in Hc. now apply maximal_clique_b_spec.
  - intros S HS.
    set (c := filter (fun x => PySet.mem x S) (nodup string_dec (nodes G))).
    assert (Hsame : same_members c S).
    { intros x. unfold c. rewrite filter_In, nodup_In, mem_In.
      destruct HS as [[_ [Hnodes _]] _]. split; [tauto | auto]. }
    exists c. split; [| exact Hsame].
    apply filter_In. split; [apply filter_in_sublists |].
    apply maximal_clique_b_spec. now apply maximal_clique_same_members with S.
Qed.

(** The references of a triangle with a pendant edge: s1 for the
    triangle, and the edge s3-s4 is covered. *)
Lemma extractReferences_covers_cliques_witness :
  exists references refFileName lines,
    extractReferences (all_maximal_cliques example_cliques_graph) "db"
    = Ok (references, refFileName, lines) /\
    exists r, In r references /\ In r ["s3"; "s4"].
Proof.
  destruct (@extractReferences_covers_cliques example_cliques_graph
              (all_maximal_cliques example_cliques_graph)
              "db" (all_maximal_cliques_enumerates example_cliques_graph))
    as [references [refFileName [lines [E Hcov]]]].
  exists references, refFileName, lines. split; [exact E |].
  apply Hcov. apply maximal_clique_b_spec. vm_compute. reflexivity.
Defined.

Lemma enumerates_same_cliques (G : Graph) (cliques cliques' : list (list sample)) :
  enumerates_maximal_cliques G cliques ->
  (forall c', In c' cliques' -> exists c, In c cliques /\ same_members c' c) ->
  (forall c, In c cliques -> exists c', In c' cliques' /\ same_members c' c) ->
  enumerates_maximal_cliques G cliques'.
Proof.
  intros [Hsound Hcomplete] Hl Hr. split.
  - intros c' Hc'. destruct (Hl c' Hc') as [c [Hc Hs]].
    apply maximal_clique_same_members with c; [exact Hs | now apply Hsound].
  - intros S HS. destruct (Hcomplete S HS) as [c [Hc Hs]].
    destruct (Hr c Hc) as [c' [Hc' Hs']].
    exists c'. split; [exact Hc' |]. intros x. rewrite (Hs' x). apply Hs.
Qed.

(** The network of the single edge s1-s2 has one maximal clique.  Listed
    as (s1, s2) it gives the reference s1, listed as (s2, s1) the
    reference s2: the references are not determined by the network. *)
Lemma extractReferences_depends_on_enumeration :
  enumerates_maximal_cliques pair_graph [["s1"; "s2"]] /\
  enumerates_maximal_cliques pair_graph [["s2"; "s1"]] /\
  extractReferences [["s1"; "s2"]] "db"
  = Ok (["s1"], "./db/db.refs", ["s1" ++ newline]%string) /\
  extractReferences [["s2"; "s1"]] "db"
  = Ok (["s2"], "./db/db.refs", ["s2" ++ newline]%string).
Proof.
  assert (H : enumerates_maximal_cliques pair_graph [["s1"; "s2"]]).
  { assert (E : all_maximal_cliques pair_graph = [["s1"; "s2"]])
      by (vm_compute; reflexivity).
    rewrite <- E. apply all_maximal_cliques_enumerates. }
  split; [exact H |]. split; [| split; vm_compute; reflexivity].
  apply enumerates_same_cliques with [["s1"; "s2"]]; [exact H | |].
  - intros c' [<- | []]. exists ["s1"; "s2"]. split; [now left |].
    intros x. simpl. tauto.
  - intros c [<- | []]. exists ["s2"; "s1"]. split; [now left |].
    intros x. simpl. tauto.
Qed.

(** ** Connected components *)

Lemma In_neighbors (G : Graph) (v w : sample) :
  In w (neighbors G v) <-> In w (nodes G) /\ has_edge G v w = true.
Proof.
  unfold neighbors. apply filter_In.
Qed.

Lemma In_expand (G : Graph) (S : PySet.t) (y : sample) :
  In y (expand G S) <->
  In y S \/ exists v, In v S /\ In y (nodes G) /\ has_edge G v y = true.
Proof.
  unfold expand. rewrite In_update, in_flat_map.
  setoid_rewrite In_neighbors. tauto.
Qed.

Lemma length_add (x : sample) (s : PySet.t) :
  length (PySet.add x s) = if PySet.mem x s then length s else S (length s).
Proof.
  unfold PySet.add. destruct (PySet.mem x s); [reflexivity |].
  rewrite length_app. simpl. lia.
Qed.

Lemma length_update (s : PySet.t) (l : list sample) :
  length s <= length (PySet.update s l).
Proof.
  unfold PySet.update. revert s. induction l as [| x l IH]; intros s; simpl.
  - lia.
  - specialize (IH (PySet.add x s)). rewrite length_add in IH.
    destruct (PySet.mem x s); lia.
Qed.

Lemma update_fixed (s : PySet.t) (l : list sample) :
  (forall x, In x l -> In x s) -> PySet.update s l = s.
Proof.
  unfold PySet.update. induction l as [| x l IH]; intros H; simpl.
  - reflexivity.
  - unfold PySet.add at 2. rewrite (proj2 (mem_In x s)) by (apply H; now left).
    apply IH. intros y Hy. apply H. now right.
Qed.

Lemma update_grows (s : PySet.t) (l : list sample) (x : sample) :
  In x l -> ~ In x s -> length s < length (PySet.update s l).
Proof.
  unfold PySet.update. revert s. induction l as [| y l IH]; intros s Hx Hs; simpl.
  - contradiction.
  - destruct (String.eqb x y) eqn:E.
    + apply String.eqb_eq in E. subst y.
      pose proof (length_update (PySet.add x s) l) as H.
      rewrite length_add, (proj2 (mem_false x s) Hs) in H.
      unfold PySet.update in H. lia.
    + apply String.eqb_neq in E. destruct Hx as [Hx | Hx]; [congruence |].
      assert (H : length (PySet.add y s) < length (fold_left (fun s x => PySet.add x s) l (PySet.add y s))).
      { apply IH; [exact Hx |]. rewrite In_add. intros [H | H]; auto. }
      rewrite length_add in H. destruct (PySet.mem y s); lia.
Qed.

(** One level of the search either adds a name or has nothing to add. *)
Lemma expand_closed_or_grows (G : Graph) (S : PySet.t) :
  (closed G S /\ expand G S = S) \/ length S < length (expand G S).
Proof.
  destruct (forallb (fun x => PySet.mem x S) (flat_map (neighbors G) S)) eqn:E.
  - left. rewrite forallb_forall in E.
    assert (H : forall x, In x (flat_map (neighbors G) S) -> In x S)
      by (intros x Hx; apply mem_In, E, Hx).
    split.
    + intros v w Hv Hw He. apply H, in_flat_map. exists v. split; [exact Hv |].
      now apply In_neighbors.
    + now apply update_fixed.
  - right.
    assert (H : exists x, In x (flat_map (neighbors G) S) /\ PySet.mem x S = false).
    { clear -E. induction (flat_map (neighbors G) S) as [| y l IH]; simpl in E.
      - discriminate.
      - apply andb_false_iff in E. destruct E as [E | E].
        + exists y. split; [now left | exact E].
        + destruct (IH E) as [x [Hx Hm]]. exists x. split; [now right | exact Hm]. }
    destruct H as [x [Hx Hm]]. apply mem_false in Hm.
    now apply update_grows with x.
Qed.

Lemma iter_expand_fixed (G : Graph) (S : PySet.t) (k : nat) :
  expand G S = S -> Nat.iter k (expand G) S = S.
Proof.
  intros H. induction k as [| k IH]; simpl; [reflexivity | now rewrite IH].
Qed.

Lemma NoDup_expand (G : Graph) (S : PySet.t) : NoDup S -> NoDup (expand G S).
Proof.
  apply NoDup_update.
Qed.

Lemma incl_expand (G : Graph) (S : PySet.t) :
  incl S (nodes G) -> incl (expand G S) (nodes G).
Proof.
  intros H y Hy. apply In_expand in Hy. destruct Hy as [Hy | [v [_ [Hy _]]]]; auto.
Qed.

(** With enough levels the search ends on a closed set. *)
Lemma iter_expand_closed (G : Graph) (k : nat) (S : PySet.t) :
  NoDup S -> incl S (nodes G) -> length (nodes G) < length S + k ->
  closed G (Nat.iter k (expand G) S).
Proof.
  revert S. induction k as [| k IH]; intros S Hnd Hincl Hlen.
  - pose proof (NoDup_incl_length Hnd Hincl). lia.
  - rewrite Nat.iter_succ_r.
    destruct (expand_closed_or_grows G S) as [[Hc Hfix] | Hgrow].
    + rewrite Hfix, iter_expand_fixed by exact Hfix. exact Hc.
    + apply IH; [now apply NoDup_expand | now apply incl_expand | lia].
Qed.

Section BfsFacts.
Variable G : Graph.
Variable source : sample.
Hypothesis Hsource : In source (nodes G).

Lemma plain_bfs_invariant (P : PySet.t -> Prop) :
  P [source] -> (forall S, P S -> P (expand G S)) -> P (plain_bfs G source).
Proof.
  intros H0 Hstep. unfold plain_bfs. now apply Nat.iter_invariant.
Qed.

Lemma plain_bfs_source : In source (plain_bfs G source).
Proof.
  apply plain_bfs_invariant; [now left |].
  intros S HS. apply In_expand. now left.
Qed.

Lemma plain_bfs_NoDup : NoDup (plain_bfs G source).
Proof.
  apply plain_bfs_invariant; [repeat constructor; auto |].
  intros S. apply NoDup_expand.
Qed.

Lemma plain_bfs_incl : incl (plain_bfs G source) (nodes G).
Proof.
  apply plain_bfs_invariant.
  - intros x [<- | []]. exact Hsource.
  - intros S. apply incl_expand.
Qed.

Lemma plain_bfs_closed : closed G (plain_bfs G source).
Proof.
  unfold plain_bfs. apply iter_expand_closed.
  - repeat constructor; auto.
  - intros x [<- | []]. exact Hsource.
  - simpl. lia.
Qed.

(** The search from a name outside a closed set stays outside it. *)
Lemma plain_bfs_avoids (seen : PySet.t) :
  closed G seen -> ~ In source seen ->
  forall x, In x (plain_bfs G source) -> ~ In x seen.
Proof.
  intros Hclosed Hnot.
  apply (plain_bfs_invariant
           (fun S => forall x, In x S -> In x (nodes G) /\ ~ In x seen)).
  - intros x [<- | []]. auto.
  - intros S HS x Hx. apply In_expand in Hx.
    destruct Hx as [Hx | [v [Hv [Hx He]]]]; [now apply HS |].
    split; [exact Hx |]. intros Hseen.
    destruct (HS v Hv) as [Hvn Hvs]. apply Hvs.
    apply (Hclosed x v Hseen Hvn). now rewrite has_edge_sym.
Qed.
End BfsFacts.

Lemma closed_update (G : Graph) (S c : PySet.t) :
  closed G S -> closed G c -> closed G (PySet.update S c).
Proof.
  intros HS Hc v w Hv Hw He. apply In_update. apply In_update in Hv.
  destruct Hv as [Hv | Hv]; [left; now apply (HS v) | right; now apply (Hc v)].
Qed.

(** What the loop of [nx.connected_components] yields from a closed set
    of seen names: non-empty duplicate-free sets of nodes that share no
    name with each other or with the seen names, and hold every name of
    the list that was not seen. *)
Lemma components_from_spec (G : Graph) (vs : list sample) (seen : PySet.t) :
  incl vs (nodes G) -> closed G seen ->
  let comps := components_from G vs seen in
  Forall (fun c => c <> []) comps /\
  NoDup (concat comps) /\
  (forall x, In x (concat comps) -> In x (nodes G) /\ ~ In x seen) /\
  (forall v, In v vs -> In v seen \/ In v (concat comps)).
Proof.
  revert seen. induction vs as [| v vs IH]; intros seen Hvs Hclosed; simpl.
  - repeat split; try constructor; contradiction.
  - assert (Hv : In v (nodes G)) by (apply Hvs; now left).
    assert (Hvs' : incl vs (nodes G)) by (intros x Hx; apply Hvs; now right).
    destruct (PySet.mem v seen) eqn:E.
    + apply mem_In in E.
      destruct (IH seen Hvs' Hclosed) as [Hne [Hnd [Hout Hcov]]].
      repeat split; try assumption; try (now apply Hout).
      intros x [<- | Hx]; [now left | now apply Hcov].
    + apply mem_false in E.
      assert (Hclosed' : closed G (PySet.update seen (plain_bfs G v)))
        by (apply closed_update; [exact Hclosed | now apply plain_bfs_closed]).
      destruct (IH _ Hvs' Hclosed') as [Hne [Hnd [Hout Hcov]]].
      simpl. split; [| split; [| split]].
      * constructor; [| exact Hne].
        intros H. pose proof (plain_bfs_source G v) as Hs. rewrite H in Hs. exact Hs.
      * apply NoDup_app; [apply plain_bfs_NoDup | exact Hnd |].
        intros a Ha Ha'. apply Hout in Ha'. apply (proj2 Ha').
        apply In_update. now right.
      * intros x Hx. apply in_app_iff in Hx. destruct Hx as [Hx | Hx].
        -- split; [now apply (@plain_bfs_incl G v Hv) | now apply (@plain_bfs_avoids G v Hv seen Hclosed E)].
        -- destruct (Hout x Hx) as [H1 H2]. split; [exact H1 |].
           intros H. apply H2, In_update. now left.
      * intros x [<- | Hx].
        -- right. apply in_app_iff. left. apply plain_bfs_source.
        -- destruct (Hcov x Hx) as [H | H].
           ++ apply In_update in H. destruct H as [H | H]; [now left |].
              right. apply in_app_iff. now left.
           ++ right. apply in_app_iff. now right.
Qed.

(** The connected components partition the nodes. *)
Lemma connected_components_partition (G : Graph) :
  Forall (fun c => c <> []) (connected_components G) /\
  NoDup (concat (connected_components G)) /\
  (forall x, In x (concat (connected_components G)) <-> In x (nodes G)).
Proof.
  destruct (@components_from_spec G (nodes G) []) as [Hne [Hnd [Hout Hcov]]].
  - apply incl_refl.
  - intros v w [].
  - split; [exact Hne |]. split; [exact Hnd |].
    intros x. split.
    + intros Hx. now apply Hout.
    + intros Hx. destruct (Hcov x Hx) as [[] | H]. exact H.
Qed.

Lemma Permutation_concat (A : Type) (l l' : list (list A)) :
  Permutation l l' -> Permutation (concat l) (concat l').
Proof.
  induction 1; simpl.
  - constructor.
  - now apply Permutation_app_head.
  - rewrite !app_assoc. apply Permutation_app_tail, Permutation_app_comm.
  - etransitivity; eassumption.
Qed.

(** The same holds of the components in the order [printClusters] sorts
    them in. *)
Lemma newClusters_partition (G : Graph) :
  Forall (fun c => c <> []) (newClusters_of G) /\
  NoDup (concat (newClusters_of G)) /\
  (forall x, In x (concat (newClusters_of G)) <-> In x (nodes G)).
Proof.
  destruct (connected_components_partition G) as [Hne [Hnd Hcov]].
  pose proof (sorted_perm (fun x y : list sample => length y <=? length x)
                (connected_components G)) as Hperm.
  fold (sorted_by_len_desc (connected_components G)) in Hperm.
  fold (newClusters_of G) in Hperm.
  split; [| split].
  - eapply Permutation_Forall; eassumption.
  - eapply Permutation_NoDup; [apply Permutation_concat, Hperm | exact Hnd].
  - intros x. rewrite <- Hcov. split; apply Permutation_in, Permutation_concat;
      [symmetry |]; exact Hperm.
Qed.

(** ** Components and paths *)

Lemma connected_nodes (G : Graph) (u w : sample) :
  connected G u w -> In u (nodes G) /\ In w (nodes G).
Proof.
  induction 1 as [v Hv | u v w _ IH Hw _]; [auto | tauto].
Qed.

Lemma connected_trans (G : Graph) (u v w : sample) :
  connected G u v -> connected G v w -> connected G u w.
Proof.
  intros Huv Hvw. induction Hvw as [v Hv | v x w _ IH Hw He]; [exact Huv |].
  eapply connected_step; [apply IH, Huv | exact Hw | exact He].
Qed.

Lemma connected_sym (G : Graph) (u w : sample) : connected G u w -> connected G w u.
Proof.
  induction 1 as [v Hv | u v w Huv IH Hw He]; [now constructor |].
  apply connected_trans with v; [| exact IH].
  apply connected_step with w; [now constructor | | now rewrite has_edge_sym].
  now apply (connected_nodes Huv).
Qed.

Lemma closed_connected (G : Graph) (S : PySet.t) (u w : sample) :
  closed G S -> In u S -> connected G u w -> In w S.
Proof.
  intros Hc Hu. induction 1 as [v Hv | u v w _ IH Hw He]; [exact Hu |].
  apply (Hc v w); auto.
Qed.

(** A search holds exactly the nodes connected to its source. *)
Lemma plain_bfs_connected (G : Graph) (source x : sample) :
  In source (nodes G) -> (In x (plain_bfs G source) <-> connected G source x).
Proof.
  intros Hs. split.
  - revert x.
    apply (plain_bfs_invariant G source (fun S => forall x, In x S -> connected G source x)).
    + intros x [<- | []]. now constructor.
    + intros S HS x Hx. apply In_expand in Hx.
      destruct Hx as [Hx | [v [Hv [Hx He]]]]; [now apply HS |].
      apply connected_step with v; auto.
  - intros H. apply closed_connected with (u := source) (G := G);
      [now apply plain_bfs_closed | apply plain_bfs_source | exact H].
Qed.

Lemma components_from_sources (G : Graph) (vs : list sample) (seen : PySet.t) :
  Forall (fun c => exists v, In v vs /\ c = plain_bfs G v) (components_from G vs seen).
Proof.
  revert seen. induction vs as [| v vs IH]; intros seen; simpl; [constructor |].
  destruct (PySet.mem v seen).
  - eapply Forall_impl; [| apply IH]. intros c [x [Hx Hc]]. exists x. auto.
  - constructor; [exists v; auto |].
    eapply Forall_impl; [| apply IH]. intros c [x [Hx Hc]]. exists x. auto.
Qed.

(** Two nodes lie in one component exactly when they are connected. *)
Lemma same_component_connected (G : Graph) (u w : sample) :
  (exists c, In c (connected_components G) /\ In u c /\ In w c) <-> connected G u w.
Proof.
  split.
  - intros [c [Hc [Hu Hw]]].
    pose proof (components_from_sources G (nodes G) []) as Hsrc.
    rewrite Forall_forall in Hsrc. destruct (Hsrc c Hc) as [v [Hv ->]].
    apply plain_bfs_connected in Hu, Hw; try assumption.
    apply connected_trans with v; [now apply connected_sym | exact Hw].
  - intros H. destruct (connected_nodes H) as [Hu _].
    destruct (connected_components_partition G) as [_ [_ Hcov]].
    apply Hcov, in_concat in Hu. destruct Hu as [c [Hc Hu]].
    exists c. split; [exact Hc |]. split; [exact Hu |].
    pose proof (components_from_sources G (nodes G) []) as Hsrc.
    rewrite Forall_forall in Hsrc. destruct (Hsrc c Hc) as [v [Hv ->]].
    apply closed_connected with (u := u) (G := G);
      [now apply plain_bfs_closed | exact Hu | exact H].
Qed.

(** ** The clustering dict *)

Lemma get_assign_members (members : PySet.t) (id : cluster_id)
      (d : PyDict.t cluster_id) (m : string) :
  PyDict.get m (assign_members members id d)
  = if PySet.mem m members then Some id else PyDict.get m d.
Proof.
  unfold assign_members. revert d.
  induction members as [| x members IH]; intros d; simpl.
  - reflexivity.
  - rewrite IH, get_set. destruct (PySet.mem m members); simpl.
    + now rewrite orb_true_r.
    + now rewrite orb_false_r.
Qed.


Lemma keys_set (V : Type) (k : string) (v : V) (d : PyDict.t V) :
  PyDict.keys (PyDict.set k v d)
  = if PySet.mem k (PyDict.keys d) then PyDict.keys d else PyDict.keys d ++ [k].
Proof.
  unfold PyDict.keys. induction d as [| [k0 v0] d IH]; simpl.
  - reflexivity.
  - destruct (String.eqb k k0) eqn:E; simpl; [reflexivity |].
    rewrite IH. now destruct (PySet.mem k (map fst d)).
Qed.

Lemma NoDup_keys_set (V : Type) (k : string) (v : V) (d : PyDict.t V) :
  NoDup (PyDict.keys d) -> NoDup (PyDict.keys (PyDict.set k v d)).
Proof.
  intros H. rewrite keys_set. now apply (NoDup_add k) in H.
Qed.

Lemma NoDup_keys_assign_members (members : PySet.t) (id : cluster_id)
      (d : PyDict.t cluster_id) :
  NoDup (PyDict.keys d) -> NoDup (PyDict.keys (assign_members members id d)).
Proof.
  unfold assign_members. revert d.
  induction members as [| x members IH]; intros d H; simpl; [exact H |].
  apply IH, NoDup_keys_set, H.
Qed.

Lemma NoDup_keys_assign_trace (trace : list (PySet.t * cluster_id))
      (d : PyDict.t cluster_id) :
  NoDup (PyDict.keys d) -> NoDup (PyDict.keys (assign_trace trace d)).
Proof.
  unfold assign_trace. revert d.
  induction trace as [| ci trace IH]; intros d H; simpl; [exact H |].
  apply IH, NoDup_keys_assign_members, H.
Qed.

(** The loop and its trace. *)
Lemma name_clusters_trace (old : option (PyDict.t PySet.t * PySet.t))
      (newClusters : list PySet.t) (idx nid : nat)
      (d : PyDict.t cluster_id) (db : list sample) :
  match name_clusters old idx nid newClusters d db with
  | Ok (d', _) =>
      exists trace, name_trace old idx nid newClusters = Ok trace /\
                    d' = assign_trace trace d
  | Raise e => name_trace old idx nid newClusters = Raise e
  end.
Proof.
  revert idx nid d db. induction newClusters as [| c rest IH]; intros idx nid d db; simpl.
  - exists []. split; reflexivity.
  - destruct (name_cluster old idx nid c) as [[[id nid'] refs] | e]; simpl; [| reflexivity].
    specialize (IH (S idx) nid' (assign_members c id d) (db ++ refs)).
    destruct (name_clusters old (S idx) nid' rest (assign_members c id d) (db ++ refs))
      as [[d' db'] | e].
    + destruct IH as [trace [Ht Hd]]. rewrite Ht. simpl.
      exists ((c, id) :: trace). split; [reflexivity | exact Hd].
    + now rewrite IH.
Qed.

Lemma name_trace_clusters (old : option (PyDict.t PySet.t * PySet.t))
      (newClusters : list PySet.t) (idx nid : nat) (trace : list (PySet.t * cluster_id)) :
  name_trace old idx nid newClusters = Ok trace -> map fst trace = newClusters.
Proof.
  revert idx nid trace. induction newClusters as [| c rest IH]; intros idx nid trace; simpl.
  - intros H. inversion H. reflexivity.
  - destruct (name_cluster old idx nid c) as [[[id nid'] refs] | e]; simpl; [| discriminate].
    destruct (name_trace old (S idx) nid' rest) as [tr |] eqn:E; simpl; [| discriminate].
    intros H. inversion H; subst. simpl. f_equal. eapply IH, E.
Qed.

(** In a trace over disjoint clusters every member has the id of its
    cluster, and names outside the clusters keep what they had. *)
Lemma get_assign_trace (trace : list (PySet.t * cluster_id)) (d : PyDict.t cluster_id) :
  NoDup (concat (map fst trace)) ->
  (forall c id m, In (c, id) trace -> In m c ->
                  PyDict.get m (assign_trace trace d) = Some id) /\
  (forall m, ~ In m (concat (map fst trace)) ->
             PyDict.get m (assign_trace trace d) = PyDict.get m d).
Proof.
  unfold assign_trace. revert d.
  induction trace as [| [c0 id0] trace IH]; intros d Hnd; simpl.
  - split; [intros c id m [] | reflexivity].
  - simpl in Hnd. pose proof (NoDup_app_remove_l _ _ Hnd) as Hnd'.
    destruct (IH (assign_members c0 id0 d) Hnd') as [Hin Hout].
    split.
    + intros c id m [H | H] Hm.
      * inversion H; subst. rewrite Hout.
        -- rewrite get_assign_members. now rewrite (proj2 (mem_In m c) Hm).
        -- intros Hm'. revert Hnd Hm Hm'. clear. intros Hnd Hm Hm'.
           induction c as [| x c IHc]; [contradiction |].
           simpl in Hnd. inversion Hnd; subst. destruct Hm as [-> | Hm].
           ++ apply H1, in_app_iff. now right.
           ++ now apply IHc.
      * now apply Hin with c.
    + intros m Hm. rewrite Hout.
      * rewrite get_assign_members.
        destruct (PySet.mem m c0) eqn:E; [| reflexivity].
        apply mem_In in E. exfalso. apply Hm, in_app_iff. now left.
      * intros H. apply Hm, in_app_iff. now right.
Qed.

(** [sorted(..., key=len, reverse=True)]: largest first, and lists of one
    size in the order they came in. *)
Lemma sorted_by_len_desc_spec (l : list (list sample)) :
  Permutation l (sorted_by_len_desc l) /\
  StronglySorted (fun a b => length b <= length a) (sorted_by_len_desc l) /\
  forall k, filter (fun c => length c =? k) (sorted_by_len_desc l)
            = filter (fun c => length c =? k) l.
Proof.
  unfold sorted_by_len_desc. split; [apply sorted_perm |]. split.
  - apply sorted_StronglySorted with (key := @length sample).
    + intros x y H. now apply Nat.leb_le.
    + intros x y H. apply Nat.leb_gt in H. lia.
    + intros x y z. lia.
  - intros k.
    apply sorted_stable with (R := fun a b : list sample => length b <= length a).
    intros x y H. apply Nat.leb_gt in H. lia.
Qed.

(** ** [printClusters] without a previous clustering *)

Lemma name_trace_None (newClusters : list PySet.t) (idx nid : nat) :
  exists trace,
    name_trace None idx nid newClusters = Ok trace /\
    forall c id, In (c, id) trace <->
                 exists i, nth_error newClusters i = Some c /\ id = IdInt (idx + i).
Proof.
  revert idx. induction newClusters as [| c0 rest IH]; intros idx; simpl.
  - exists []. split; [reflexivity |]. intros c id. split; [intros [] |].
    intros [[| i] [H _]]; discriminate.
  - destruct (IH (S idx)) as [trace [Ht Hin]]. rewrite Ht. simpl.
    exists ((c0, IdInt idx) :: trace). split; [reflexivity |].
    intros c id. simpl. rewrite Hin. split.
    + intros [H | [i [Hi ->]]].
      * inversion H; subst. exists 0. split; [reflexivity | f_equal; lia].
      * exists (S i). split; [exact Hi | f_equal; lia].
    + intros [[| i] [Hi ->]]; simpl in Hi.
      * left. inversion Hi; subst. f_equal. f_equal. lia.
      * right. exists i. split; [exact Hi | f_equal; lia].
Qed.

Lemma name_clusters_new_ref_db_None (newClusters : list PySet.t) (idx nid : nat)
      (d d' : PyDict.t cluster_id) (db db' : list sample) :
  name_clusters None idx nid newClusters d db = Ok (d', db') -> db' = db.
Proof.
  revert idx d db. induction newClusters as [| c rest IH]; intros idx d db; simpl.
  - intros H. now inversion H.
  - intros H. apply IH in H. now rewrite app_nil_r in H.
Qed.

Lemma NoDup_concat_unique (A : Type) (l : list (list A)) (i j : nat)
      (c c' : list A) (m : A) :
  NoDup (concat l) ->
  nth_error l i = Some c -> nth_error l j = Some c' -> In m c -> In m c' -> i = j.
Proof.
  revert i j. induction l as [| c0 l IH]; intros i j Hnd Hi Hj Hm Hm'.
  - destruct i; discriminate.
  - simpl in Hnd.
    assert (Hsep : forall x d k, In x c0 -> nth_error l k = Some d -> ~ In x d).
    { intros x d k Hx Hk Hd. revert Hnd Hx. clear -Hk Hd. intros Hnd Hx.
      induction c0 as [| y c0 IHc]; [contradiction |].
      simpl in Hnd. inversion Hnd; subst. destruct Hx as [-> | Hx].
      - apply H1, in_app_iff. right. apply in_concat. exists d.
        split; [eapply nth_error_In; eassumption | exact Hd].
      - now apply IHc. }
    destruct i as [| i], j as [| j]; simpl in Hi, Hj.
    + reflexivity.
    + inversion Hi; subst. exfalso. now apply (Hsep m c' j).
    + inversion Hj; subst. exfalso. now apply (Hsep m c i).
    + f_equal. apply IH; try assumption. now apply NoDup_app_remove_l in Hnd.
Qed.

(** C6. Without a previous clustering the connected components, the
    classes of nodes joined by paths of edges, are sorted by descending
    size, components of one size in the order [nx.connected_components]
    yields them, and every node of a component gets the 0-based rank of
    its component as its id: every node has exactly one entry in the
    clustering, two nodes have the same id exactly when a path of edges
    joins them, and the ids in use are exactly 0..k-1 for k components.
    Whenever [printClusters] returns, this is the clustering it
    returns. *)
Theorem printClusters_sequential_ids (fs : filesystem) (G : Graph) :
  exists clustering,
    label_clusters fs G None = Ok (None, clustering, []) /\
    (forall outPrefix printRef r,
        printClusters fs G outPrefix None printRef = Ok r -> fst (fst r) = clustering) /\
    Permutation (connected_components G) (newClusters_of G) /\
    (forall c u, In c (newClusters_of G) -> In u c ->
                 forall w, In w c <-> connected G u w) /\
    StronglySorted (fun a b => length b <= length a) (newClusters_of G) /\
    (forall k, filter (fun c => length c =? k) (newClusters_of G)
               = filter (fun c => length c =? k) (connected_components G)) /\
    (forall i c m, nth_error (newClusters_of G) i = Some c -> In m c ->
                   PyDict.get m clustering = Some (IdInt i)) /\
    (forall m id, PyDict.get m clustering = Some id ->
                  In m (nodes G) /\
                  exists i, i < length (newClusters_of G) /\ id = IdInt i) /\
    (forall m, In m (nodes G) -> exists i, PyDict.get m clustering = Some (IdInt i)) /\
    (forall u w, In u (nodes G) -> In w (nodes G) ->
                 (PyDict.get u clustering = PyDict.get w clustering <-> connected G u w)) /\
    (forall i, i < length (newClusters_of G) <->
               exists m, PyDict.get m clustering = Some (IdInt i)) /\
    NoDup (PyDict.keys clustering).
Proof.
  destruct (newClusters_partition G) as [Hne [Hnd Hcov]].
  destruct (sorted_by_len_desc_spec (connected_components G)) as [Hperm [Hsorted Hstable]].
  destruct (name_trace_None (newClusters_of G) 0 0) as [trace [Ht Hin]].
  pose proof (name_clusters_trace None (newClusters_of G) 0 0 [] []) as Hloop.
  destruct (name_clusters None 0 0 (newClusters_of G) [] []) as [[d db] | e] eqn:E;
    [| congruence].
  destruct Hloop as [trace' [Ht' Hd]].
  assert (trace' = trace) by congruence. subst trace'. clear Ht'.
  apply name_clusters_new_ref_db_None in E as Hdb. subst db.
  pose proof (@name_trace_clusters _ _ _ _ _ Ht) as Hmap.
  destruct (@get_assign_trace trace []) as [Hget Hout]; [now rewrite Hmap |].
  rewrite Hmap in Hout. rewrite <- Hd in Hget, Hout.
  assert (Hrank : forall i c m, nth_error (newClusters_of G) i = Some c -> In m c ->
                                PyDict.get m d = Some (IdInt i)).
  { intros i c m Hi Hm. apply Hget with c; [| exact Hm]. apply Hin. now exists i. }
  assert (Hnode : forall m, In m (nodes G) ->
                            exists i c, nth_error (newClusters_of G) i = Some c /\ In m c).
  { intros m Hm. apply Hcov, in_concat in Hm. destruct Hm as [c [Hc Hm]].
    apply In_nth_error in Hc. destruct Hc as [i Hi]. eauto. }
  assert (Hback : forall m id, PyDict.get m d = Some id ->
                               In m (nodes G) /\
                               exists i, i < length (newClusters_of G) /\ id = IdInt i).
  { intros m id Hm.
    assert (Hmn : In m (nodes G)).
    { apply Hcov. destruct (in_dec string_dec m (concat (newClusters_of G))) as [H | H];
        [exact H |]. rewrite (Hout m H) in Hm. discriminate. }
    split; [exact Hmn |].
    destruct (Hnode m Hmn) as [i [c [Hi Hc]]]. exists i. split.
    - apply nth_error_Some. congruence.
    - rewrite (Hrank i c m Hi Hc) in Hm. congruence. }
  assert (Hcomp : forall u w, connected G u w <->
                              exists c, In c (newClusters_of G) /\ In u c /\ In w c).
  { intros u w. rewrite <- same_component_connected.
    split; intros [c [Hc H]]; exists c; (split; [| exact H]).
    - eapply Permutation_in; eassumption.
    - eapply Permutation_in; [symmetry |]; eassumption. }
  assert (Hone : forall c c' m, In c (newClusters_of G) -> In c' (newClusters_of G) ->
                                In m c -> In m c' -> c = c').
  { intros c c' m Hc Hc' Hm Hm'. apply In_nth_error in Hc, Hc'.
    destruct Hc as [i Hi], Hc' as [j Hj].
    assert (i = j) by (apply (@NoDup_concat_unique _ _ i j c c' m Hnd Hi Hj Hm Hm')).
    subst j. congruence. }
  exists d. split; [| split; [| repeat split]].
  - unfold label_clusters. simpl. rewrite E. reflexivity.
  - intros outPrefix printRef r. unfold printClusters, label_clusters. simpl.
    destruct (negb printRef); [discriminate |]. rewrite E. simpl.
    destruct (cluster_file d printRef None); simpl; [| discriminate].
    intros H. inversion H. reflexivity.
  - exact Hperm.
  - intros Hw. apply Hcomp. exists c. auto.
  - intros Huw. apply Hcomp in Huw. destruct Huw as [c' [Hc' [Hu' Hw']]].
    now rewrite (Hone c c' u).
  - exact Hsorted.
  - exact Hstable.
  - exact Hrank.
  - now apply (Hback m id).
  - now apply (Hback m id).
  - intros m Hm. destruct (Hnode m Hm) as [i [c [Hi Hc]]]. exists i. now apply Hrank with c.
  - intros Heq.
    destruct (Hnode u) as [i [c [Hi Hc]]]; [assumption |].
    destruct (Hnode w) as [j [c' [Hj Hc']]]; [assumption |].
    rewrite (Hrank i c u Hi Hc), (Hrank j c' w Hj Hc') in Heq.
    inversion Heq; subst j. apply Hcomp. exists c.
    split; [eapply nth_error_In, Hi |]. split; [exact Hc | congruence].
  - intros Huw. apply Hcomp in Huw. destruct Huw as [c [Hc [Hu Hw]]].
    apply In_nth_error in Hc. destruct Hc as [i Hi].
    now rewrite (Hrank i c u Hi Hu), (Hrank i c w Hi Hw).
  - intros Hi. apply nth_error_Some in Hi.
    destruct (nth_error (newClusters_of G) i) as [c |] eqn:Ec; [| congruence].
    assert (Hc : c <> []).
    { rewrite Forall_forall in Hne. apply Hne. eapply nth_error_In, Ec. }
    destruct c as [| m c]; [congruence |].
    exists m. apply Hrank with (m :: c); [exact Ec | now left].
  - intros [m Hm]. destruct (Hback m _ Hm) as [_ [j [Hj Hij]]]. inversion Hij. now subst.
  - rewrite Hd. apply NoDup_keys_assign_trace. constructor.
Qed.

(** ** The search through the previous clusters *)

Lemma append_assoc (a b c : string) : ((a ++ b) ++ c = a ++ (b ++ c))%string.
Proof.
  induction a as [| x a IH]; simpl; [reflexivity | now rewrite IH].
Qed.

Lemma join_cons (x y : string) (l : list string) :
  join "_" (x :: y :: l) = (x ++ "_" ++ join "_" (y :: l))%string.
Proof.
  reflexivity.
Qed.

Lemma composite_join (c : string) (names : list string) :
  composite (Some c) names = Some (join "_" (c :: names)).
Proof.
  unfold composite. revert c. induction names as [| n names IH]; intros c.
  - reflexivity.
  - simpl fold_left. rewrite IH. f_equal.
    destruct names as [| n' names]; [reflexivity |].
    rewrite !join_cons. rewrite append_assoc. reflexivity.
Qed.

Lemma composite_None (names : list string) :
  composite None names = match names with
                         | [] => None
                         | _ => Some (join "_" names)
                         end.
Proof.
  destruct names as [| n names]; [reflexivity |].
  change (composite None (n :: names)) with (composite (Some n) names).
  apply composite_join.
Qed.

Lemma composite_app (cls : option string) (a b : list string) :
  composite cls (a ++ b) = composite (composite cls a) b.
Proof.
  unfold composite. apply fold_left_app.
Qed.

Lemma overlap_le (ref_only members : PySet.t) :
  overlap ref_only members <= PySet.len ref_only.
Proof.
  unfold overlap, PySet.len, PySet.inter. apply filter_length_le.
Qed.

(** One step of the search, by the kind of the cluster it looks at. *)
Lemma scan_old_cons (ref_only : PySet.t) (name : string) (members : PySet.t)
      (rest : PyDict.t PySet.t) (cls : option string) :
  scan_old ref_only ((name, members) :: rest) cls
  = if partial_match ref_only members then
      scan_old ref_only rest (composite cls [name])
    else if exact_match ref_only members then
      match cls with
      | None => Ok (Some name)
      | Some _ => Raise AssertionError
      end
    else scan_old ref_only rest cls.
Proof.
  unfold partial_match, exact_match. simpl scan_old.
  fold (overlap ref_only members).
  pose proof (overlap_le ref_only members) as Hle.
  destruct (0 <? overlap ref_only members) eqn:E0; simpl; [| reflexivity].
  destruct (overlap ref_only members <? PySet.len ref_only) eqn:E1; simpl.
  - now destruct cls.
  - destruct (overlap ref_only members =? PySet.len ref_only) eqn:E2; [reflexivity |].
    apply Nat.ltb_ge in E1. apply Nat.eqb_neq in E2. lia.
Qed.

Lemma partial_not_exact (ref_only members : PySet.t) :
  partial_match ref_only members = true -> exact_match ref_only members = false.
Proof.
  unfold partial_match, exact_match. intros H.
  apply andb_true_iff in H. destruct H as [_ H]. apply Nat.ltb_lt in H.
  apply andb_false_iff. right. apply Nat.eqb_neq. lia.
Qed.

(** A cluster that meets [ref_only] is a partial or an exact match. *)
Lemma meets_partial_or_exact (ref_only members : PySet.t) :
  (0 <? overlap ref_only members)
  = partial_match ref_only members || exact_match ref_only members.
Proof.
  unfold partial_match, exact_match. pose proof (overlap_le ref_only members).
  destruct (0 <? overlap ref_only members); simpl; [| reflexivity].
  destruct (overlap ref_only members <? PySet.len ref_only) eqn:E1; [reflexivity |].
  apply Nat.ltb_ge in E1. symmetry. apply Nat.eqb_eq. lia.
Qed.

(** The search does not stop before the first exact match: up to there
    it appends the ids of the partial matches. *)
Lemma scan_old_no_exact (ref_only : PySet.t) (pre rest : PyDict.t PySet.t)
      (cls : option string) :
  Forall (fun kv => exact_match ref_only (snd kv) = false) pre ->
  scan_old ref_only (pre ++ rest) cls
  = scan_old ref_only rest
      (composite cls (map fst (filter (fun kv => partial_match ref_only (snd kv)) pre))).
Proof.
  intros H. revert cls. induction H as [| [name members] pre Hx _ IH]; intros cls.
  - reflexivity.
  - simpl app. rewrite scan_old_cons. simpl in Hx. rewrite Hx. simpl filter.
    destruct (partial_match ref_only members).
    + rewrite IH. simpl map.
      change (name :: map fst (filter (fun kv => partial_match ref_only (snd kv)) pre))
        with ([name] ++ map fst (filter (fun kv => partial_match ref_only (snd kv)) pre)).
      now rewrite composite_app.
    + apply IH.
Qed.

(** The only exception the search raises is the failed assertion. *)
Lemma scan_old_error (ref_only : PySet.t) (oldClusters : PyDict.t PySet.t)
      (cls : option string) (e : exception) :
  scan_old ref_only oldClusters cls = Raise e -> e = AssertionError.
Proof.
  revert cls. induction oldClusters as [| [name members] rest IH]; intros cls.
  - discriminate.
  - rewrite scan_old_cons.
    destruct (partial_match ref_only members); [apply IH |].
    destruct (exact_match ref_only members); [| apply IH].
    destruct cls; [congruence | discriminate].
Qed.

(** ** The naming loop with a previous clustering *)

Lemma name_cluster_seen (oldClusters : PyDict.t PySet.t) (oldNames : PySet.t)
      (idx nid : nat) (c : PySet.t) :
  PySet.inter oldNames c <> [] ->
  name_cluster (Some (oldClusters, oldNames)) idx nid c
  = (cls_id <- scan_old (PySet.inter oldNames c) oldClusters None ;;
     Ok (of_scan cls_id, nid, [])).
Proof.
  intros H. unfold name_cluster.
  destruct (PySet.inter oldNames c) as [| x l] eqn:E; [congruence | reflexivity].
Qed.


Lemma name_cluster_error (old : option (PyDict.t PySet.t * PySet.t))
      (idx nid : nat) (c : PySet.t) (e : exception) :
  c <> [] -> name_cluster old idx nid c = Raise e -> e = AssertionError.
Proof.
  intros Hc. unfold name_cluster. destruct old as [[oldClusters oldNames] |]; [| discriminate].
  destruct (PySet.len (PySet.inter oldNames c) =? 0).
  - destruct c; [congruence | discriminate].
  - destruct (scan_old (PySet.inter oldNames c) oldClusters None) eqn:E; simpl; [discriminate |].
    intros H. inversion H; subst. eapply scan_old_error, E.
Qed.

Lemma name_trace_error (old : option (PyDict.t PySet.t * PySet.t))
      (newClusters : list PySet.t) (idx nid : nat) (e : exception) :
  Forall (fun c => c <> []) newClusters ->
  name_trace old idx nid newClusters = Raise e -> e = AssertionError.
Proof.
  intros H. revert idx nid. induction H as [| c rest Hc _ IH]; intros idx nid; simpl.
  - discriminate.
  - destruct (name_cluster old idx nid c) as [[[id nid'] refs] | e'] eqn:E; simpl.
    + destruct (name_trace old (S idx) nid' rest) eqn:E'; simpl; [discriminate |].
      intros H. inversion H; subst. eapply IH, E'.
    + intros H. inversion H; subst. eapply name_cluster_error; eassumption.
Qed.

(** If naming one of the clusters fails wherever it stands in the loop,
    the loop fails. *)
Lemma name_trace_raises (old : option (PyDict.t PySet.t * PySet.t))
      (newClusters : list PySet.t) (C : PySet.t) (idx nid : nat) :
  In C newClusters ->
  (forall idx' nid', exists e, name_cluster old idx' nid' C = Raise e) ->
  exists e, name_trace old idx nid newClusters = Raise e.
Proof.
  intros HC Hfail. revert idx nid.
  induction newClusters as [| c rest IH]; intros idx nid; [contradiction |]. simpl.
  destruct (name_cluster old idx nid c) as [[[id nid'] refs] | e'] eqn:E; simpl.
  - destruct HC as [-> | HC].
    + destruct (Hfail idx nid) as [e He]. congruence.
    + destruct (IH HC (S idx) nid') as [e He]. rewrite He. simpl. eauto.
  - eauto.
Qed.

(** Every entry of the trace is what the loop body gives for its
    cluster, at a [new_id] that is not below the one the loop started
    with. *)
Lemma name_trace_In (old : option (PyDict.t PySet.t * PySet.t))
      (newClusters : list PySet.t) (idx nid : nat)
      (trace : list (PySet.t * cluster_id)) (c : PySet.t) (id : cluster_id) :
  name_trace old idx nid newClusters = Ok trace -> In (c, id) trace ->
  exists idx' nid_c nid' refs,
    name_cluster old idx' nid_c c = Ok (id, nid', refs) /\ nid <= nid_c.
Proof.
  revert idx nid trace. induction newClusters as [| c0 rest IH]; intros idx nid trace; simpl.
  - intros H. inversion H. intros [].
  - destruct (name_cluster old idx nid c0) as [[[id0 nid'] refs] | e'] eqn:E; simpl;
      [| discriminate].
    destruct (name_trace old (S idx) nid' rest) as [tr |] eqn:E'; simpl; [| discriminate].
    intros H. inversion H; subst. intros [Hin | Hin].
    + inversion Hin; subst. exists idx, nid, nid', refs. split; [exact E | lia].
    + destruct (IH _ _ _ E' Hin) as [i [n [n' [r [Hn Hle]]]]].
      exists i, n, n', r. split; [exact Hn |].
      assert (nid <= nid'); [| lia].
      clear -E. unfold name_cluster in E. destruct old as [[oc names] |].
      * destruct (PySet.len (PySet.inter names c0) =? 0).
        -- destruct c0; [discriminate |]. inversion E. lia.
        -- destruct (scan_old _ _ _); simpl in E; [| discriminate]. inversion E. lia.
      * inversion E. lia.
Qed.

(** [printClusters] with a previous clustering that can be read, in terms
    of the trace of the loop. *)
Lemma printClusters_previous_Ok (fs : filesystem) (G : Graph) (outPrefix f : string)
      (printRef : bool) (oldClusters : PyDict.t PySet.t)
      (clustering : PyDict.t cluster_id) (db : list sample) (file : string * list string) :
  readClusters fs f = Ok oldClusters ->
  printClusters fs G outPrefix (Some f) printRef = Ok (clustering, db, file) ->
  exists trace,
    name_trace (Some (oldClusters, old_names oldClusters)) 0 (length oldClusters)
      (newClusters_of G) = Ok trace /\
    clustering = assign_trace trace [].
Proof.
  intros Hread. unfold printClusters, label_clusters, load_previous.
  rewrite Hread. simpl.
  pose proof (name_clusters_trace (Some (oldClusters, old_names oldClusters))
                (newClusters_of G) 0 (length oldClusters) [] []) as Hloop.
  destruct (name_clusters _ 0 (length oldClusters) (newClusters_of G) [] [])
    as [[d db'] | e]; simpl; [| discriminate].
  destruct (cluster_file d printRef _); simpl; [| discriminate].
  intros H. inversion H; subst. exact Hloop.
Qed.

Lemma printClusters_previous_Raise (fs : filesystem) (G : Graph) (outPrefix f : string)
      (printRef : bool) (oldClusters : PyDict.t PySet.t) (e : exception) :
  readClusters fs f = Ok oldClusters ->
  name_trace (Some (oldClusters, old_names oldClusters)) 0 (length oldClusters)
    (newClusters_of G) = Raise e ->
  printClusters fs G outPrefix (Some f) printRef = Raise e.
Proof.
  intros Hread Htrace. unfold printClusters, label_clusters, load_previous.
  rewrite Hread. simpl.
  pose proof (name_clusters_trace (Some (oldClusters, old_names oldClusters))
                (newClusters_of G) 0 (length oldClusters) [] []) as Hloop.
  destruct (name_clusters _ 0 (length oldClusters) (newClusters_of G) [] [])
    as [[d db'] | e']; simpl.
  - destruct Hloop as [trace [Ht _]]. congruence.
  - congruence.
Qed.

(** The id of a component with previously known members is the result of
    the search, when [printClusters] returns. *)
Lemma printClusters_component_id (fs : filesystem) (G : Graph) (outPrefix f : string)
      (printRef : bool) (oldClusters : PyDict.t PySet.t)
      (clustering : PyDict.t cluster_id) (db : list sample) (file : string * list string)
      (C : PySet.t) :
  readClusters fs f = Ok oldClusters ->
  printClusters fs G outPrefix (Some f) printRef = Ok (clustering, db, file) ->
  In C (newClusters_of G) ->
  exists id idx nid nid' refs,
    name_cluster (Some (oldClusters, old_names oldClusters)) idx nid C
    = Ok (id, nid', refs) /\
    length oldClusters <= nid /\
    forall m, In m C -> PyDict.get m clustering = Some id.
Proof.
  intros Hread Hrun HC.
  destruct (@printClusters_previous_Ok _ _ _ _ _ _ _ _ _ Hread Hrun) as [trace [Ht ->]].
  pose proof (@name_trace_clusters _ _ _ _ _ Ht) as Hmap.
  destruct (newClusters_partition G) as [_ [Hnd _]].
  destruct (@get_assign_trace trace []) as [Hget _]; [now rewrite Hmap |].
  rewrite <- Hmap in HC. apply in_map_iff in HC. destruct HC as [[c id] [Hc Hin]].
  simpl in Hc. subst c.
  destruct (@name_trace_In _ _ _ _ _ _ _ Ht Hin) as [idx [nid [nid' [refs [Hn Hle]]]]].
  exists id, idx, nid, nid', refs. split; [exact Hn |]. split; [exact Hle |].
  intros m Hm. now apply Hget with C.
Qed.

Lemma exact_not_partial (ref_only members : PySet.t) :
  exact_match ref_only members = true -> partial_match ref_only members = false.
Proof.
  intros H. destruct (partial_match ref_only members) eqn:E; [| reflexivity].
  apply partial_not_exact in E. congruence.
Qed.

Lemma meets_nonempty (ref_only members : PySet.t) :
  (0 <? overlap ref_only members) = true -> ref_only <> [].
Proof.
  intros H. apply Nat.ltb_lt in H. pose proof (overlap_le ref_only members) as Hle.
  intros ->. simpl in Hle. lia.
Qed.

Lemma filter_partial_meets (ref_only : PySet.t) (l : PyDict.t PySet.t) :
  Forall (fun kv => exact_match ref_only (snd kv) = false) l ->
  filter (fun kv => partial_match ref_only (snd kv)) l
  = filter (fun kv => 0 <? overlap ref_only (snd kv)) l.
Proof.
  induction 1 as [| kv l Hkv _ IH]; simpl; [reflexivity |].
  rewrite meets_partial_or_exact, Hkv, orb_false_r, IH. reflexivity.
Qed.

Lemma filter_none (A : Type) (p : A -> bool) (l : list A) :
  Forall (fun x => p x = false) l -> filter p l = [].
Proof.
  induction 1 as [| x l Hx _ IH]; simpl; [reflexivity |]. now rewrite Hx.
Qed.

(** The search at the first exact match. *)
Lemma scan_old_first_exact (ref_only : PySet.t) (pre post : PyDict.t PySet.t)
      (name : string) (members : PySet.t) :
  Forall (fun kv => exact_match ref_only (snd kv) = false) pre ->
  exact_match ref_only members = true ->
  scan_old ref_only (pre ++ (name, members) :: post) None
  = match filter (fun kv => partial_match ref_only (snd kv)) pre with
    | [] => Ok (Some name)
    | _ => Raise AssertionError
    end.
Proof.
  intros Hpre Hexact. rewrite scan_old_no_exact by exact Hpre.
  rewrite scan_old_cons, (exact_not_partial _ _ Hexact), Hexact, composite_None.
  now destruct (filter (fun kv => partial_match ref_only (snd kv)) pre).
Qed.

(** C5. At the first previous cluster that matches the reference-known
    members of a component exactly: if a composite id has been begun
    (a partial match stands before it) the assertion fails and
    [printClusters] raises [AssertionError], which is not the [OSError]
    of a failed read; otherwise the search returns the id of that cluster
    as it is, whatever clusters follow, and every member of the
    component gets it. *)
Theorem printClusters_exact_match
        (fs : filesystem) (G : Graph) (f : string) (oldClusters : PyDict.t PySet.t)
        (C : PySet.t) (pre post : PyDict.t PySet.t) (name : string) (members : PySet.t)
        (Hread : readClusters fs f = Ok oldClusters)
        (HC : In C (newClusters_of G))
        (Hsplit : oldClusters = pre ++ (name, members) :: post)
        (Hexact : exact_match (PySet.inter (old_names oldClusters) C) members = true)
        (Hfirst : Forall (fun kv => exact_match (PySet.inter (old_names oldClusters) C)
                                      (snd kv) = false) pre) :
  (Exists (fun kv => partial_match (PySet.inter (old_names oldClusters) C) (snd kv) = true)
          pre ->
   forall outPrefix printRef,
     printClusters fs G outPrefix (Some f) printRef = Raise AssertionError /\
     AssertionError <> OSError) /\
  (Forall (fun kv => partial_match (PySet.inter (old_names oldClusters) C) (snd kv) = false)
          pre ->
   (forall post',
       scan_old (PySet.inter (old_names oldClusters) C) (pre ++ (name, members) :: post') None
       = Ok (Some name)) /\
   forall outPrefix printRef clustering db file,
     printClusters fs G outPrefix (Some f) printRef = Ok (clustering, db, file) ->
     forall m, In m C -> PyDict.get m clustering = Some (IdStr name)).
Proof.
  set (ref_only := PySet.inter (old_names oldClusters) C) in *.
  assert (Hne : ref_only <> []).
  { apply meets_nonempty with members. unfold exact_match in Hexact.
    now apply andb_true_iff in Hexact. }
  split.
  - intros Hpartial outPrefix printRef. split; [| discriminate].
    assert (Hscan : scan_old ref_only oldClusters None = Raise AssertionError).
    { rewrite Hsplit, scan_old_first_exact by assumption.
      destruct (filter (fun kv => partial_match ref_only (snd kv)) pre) eqn:E;
        [| reflexivity].
      exfalso. apply Exists_exists in Hpartial. destruct Hpartial as [kv [Hin Hp]].
      assert (H : In kv (filter (fun kv => partial_match ref_only (snd kv)) pre))
        by (apply filter_In; auto).
      rewrite E in H. exact H. }
    destruct (@name_trace_raises (Some (oldClusters, old_names oldClusters))
                (newClusters_of G) C 0 (length oldClusters) HC) as [e He].
    { intros idx nid. exists AssertionError.
      rewrite name_cluster_seen by exact Hne. fold ref_only. now rewrite Hscan. }
    apply printClusters_previous_Raise with oldClusters; [exact Hread |].
    rewrite He. f_equal. eapply name_trace_error; [| exact He].
    apply newClusters_partition.
  - intros Hnone.
    assert (Hfilter : filter (fun kv => partial_match ref_only (snd kv)) pre = [])
      by (now apply filter_none).
    split.
    + intros post'. rewrite scan_old_first_exact by assumption. now rewrite Hfilter.
    + intros outPrefix printRef clustering db file Hrun m Hm.
      destruct (@printClusters_component_id _ _ _ _ _ _ _ _ _ C Hread Hrun HC)
        as [id [idx [nid [nid' [refs [Hn [_ Hget]]]]]]].
      rewrite (Hget m Hm). f_equal.
      rewrite name_cluster_seen in Hn by exact Hne. fold ref_only in Hn.
      rewrite Hsplit, scan_old_first_exact, Hfilter in Hn by assumption.
      simpl in Hn. congruence.
Qed.

(** C1, as the code has it.  When the reference-known members of a
    component meet more than one previous cluster and no previous
    cluster holds all of them, the search goes through every previous
    cluster: the contributors are exactly the clusters it meets, and the
    id of the component is their ids joined with underscores in scan
    order. *)
Theorem printClusters_merge
        (fs : filesystem) (G : Graph) (f : string) (oldClusters : PyDict.t PySet.t)
        (C : PySet.t)
        (Hread : readClusters fs f = Ok oldClusters)
        (HC : In C (newClusters_of G))
        (Hmany : 1 < length (filter (fun kv => 0 <? overlap
                                                     (PySet.inter (old_names oldClusters) C)
                                                     (snd kv)) oldClusters))
        (Hno_exact : Forall (fun kv => exact_match (PySet.inter (old_names oldClusters) C)
                                         (snd kv) = false) oldClusters) :
  let ref_only := PySet.inter (old_names oldClusters) C in
  let contributors := filter (fun kv => partial_match ref_only (snd kv)) oldClusters in
  contributors = filter (fun kv => 0 <? overlap ref_only (snd kv)) oldClusters /\
  scan_old ref_only oldClusters None = Ok (Some (join "_" (map fst contributors))) /\
  forall outPrefix printRef clustering db file,
    printClusters fs G outPrefix (Some f) printRef = Ok (clustering, db, file) ->
    forall m, In m C ->
              PyDict.get m clustering = Some (IdStr (join "_" (map fst contributors))).
Proof.
  intros ref_only contributors. fold ref_only in Hmany, Hno_exact.
  assert (Hsame : contributors
                  = filter (fun kv => 0 <? overlap ref_only (snd kv)) oldClusters).
  { unfold contributors. now apply filter_partial_meets. }
  assert (Hscan : scan_old ref_only oldClusters None
                  = Ok (Some (join "_" (map fst contributors)))).
  { rewrite <- (app_nil_r oldClusters) at 1.
    rewrite scan_old_no_exact by exact Hno_exact. simpl.
    fold contributors. rewrite composite_None.
    destruct contributors as [| kv l]; [| reflexivity].
    rewrite <- Hsame in Hmany. simpl in Hmany. lia. }
  assert (Hne : ref_only <> []).
  { destruct (filter (fun kv => 0 <? overlap ref_only (snd kv)) oldClusters)
      as [| kv l] eqn:E; [simpl in Hmany; lia |].
    assert (H : In kv (filter (fun kv => 0 <? overlap ref_only (snd kv)) oldClusters))
      by (rewrite E; now left).
    apply filter_In in H. destruct H as [_ H]. eapply meets_nonempty, H. }
  split; [exact Hsame |]. split; [exact Hscan |].
  intros outPrefix printRef clustering db file Hrun m Hm.
  destruct (@printClusters_component_id _ _ _ _ _ _ _ _ _ C Hread Hrun HC)
    as [id [idx [nid [nid' [refs [Hn [_ Hget]]]]]]].
  rewrite (Hget m Hm). f_equal.
  rewrite name_cluster_seen in Hn by exact Hne. fold ref_only in Hn.
  rewrite Hscan in Hn. simpl in Hn. congruence.
Qed.

(** The merge scenario: the component of s1, s2, s3 and q1 gets the id
    0_1. *)
Lemma printClusters_merge_witness :
  exists clustering db file,
    printClusters previous_clustering_file merge_graph "out" (Some "old_clusters.csv") true
    = Ok (clustering, db, file) /\
    PyDict.get "q1" clustering = Some (IdStr "0_1").
Proof.
  assert (Hrun : printClusters previous_clustering_file merge_graph "out"
                   (Some "old_clusters.csv") true
                 = Ok ([("s1", IdStr "0_1"); ("s2", IdStr "0_1"); ("q1", IdStr "0_1");
                        ("s3", IdStr "0_1")], [],
                       ("out/out_clusters.csv",
                        ["Taxon,Cluster" ++ newline; "q1,0_1" ++ newline;
                         "s1,0_1" ++ newline; "s2,0_1" ++ newline;
                         "s3,0_1" ++ newline]%string)))
    by (vm_compute; reflexivity).
  assert (Hread : readClusters previous_clustering_file "old_clusters.csv"
                  = Ok [("0", ["s1"; "s2"]); ("1", ["s3"])])
    by (vm_compute; reflexivity).
  do 3 eexists. split; [exact Hrun |].
  refine (proj2 (proj2 (@printClusters_merge previous_clustering_file merge_graph
                          "old_clusters.csv" [("0", ["s1"; "s2"]); ("1", ["s3"])]
                          ["s1"; "s2"; "q1"; "s3"] Hread _ _ _))
            "out" true _ _ _ Hrun "q1" _).
  - vm_compute. left. reflexivity.
  - vm_compute. lia.
  - vm_compute. repeat constructor.
  - simpl. auto.
Defined.

(** With s1 in the previous clusters 0 = {s1} and 1 = {s1, s2}, the
    component {s1, s2} first begins the composite id 0 and then meets the
    exact match 1: the assertion fails. *)
Lemma printClusters_exact_match_witness :
  printClusters overlapping_file' pair_graph "out" (Some "old_clusters.csv") true
  = Raise AssertionError.
Proof.
  assert (Hread : readClusters overlapping_file' "old_clusters.csv"
                  = Ok [("0", ["s1"]); ("1", ["s1"; "s2"])])
    by (vm_compute; reflexivity).
  refine (proj1 (proj1 (@printClusters_exact_match overlapping_file' pair_graph
                          "old_clusters.csv" [("0", ["s1"]); ("1", ["s1"; "s2"])]
                          ["s1"; "s2"] [("0", ["s1"])] [] "1" ["s1"; "s2"]
                          Hread _ eq_refl _ _) _ "out" true)).
  - vm_compute. left. reflexivity.
  - vm_compute. reflexivity.
  - vm_compute. repeat constructor.
  - constructor. vm_compute. reflexivity.
Defined.

(** With s1 in the previous clusters 0 = {s1, s2} and 1 = {s1}, the
    reference-known members of the component {s1, s2} meet both previous
    clusters and cluster 1 is a partial match, but the search stops at
    the exact match 0: cluster 1 is never looked at and the id is 0. *)
Lemma printClusters_merge_stops_at_exact_match :
  readClusters overlapping_file "old_clusters.csv"
  = Ok [("0", ["s1"; "s2"]); ("1", ["s1"])] /\
  In ["s1"; "s2"] (newClusters_of pair_graph) /\
  PySet.inter (old_names [("0", ["s1"; "s2"]); ("1", ["s1"])]) ["s1"; "s2"] = ["s1"; "s2"] /\
  length (filter (fun kv => 0 <? overlap ["s1"; "s2"] (snd kv))
            [("0", ["s1"; "s2"]); ("1", ["s1"])]) = 2 /\
  partial_match ["s1"; "s2"] ["s1"] = true /\
  scan_old ["s1"; "s2"] [("0", ["s1"; "s2"]); ("1", ["s1"])] None = Ok (Some "0") /\
  exists clustering db file,
    printClusters overlapping_file pair_graph "out" (Some "old_clusters.csv") true
    = Ok (clustering, db, file) /\
    PyDict.get "s1" clustering = Some (IdStr "0") /\
    PyDict.get "s2" clustering = Some (IdStr "0").
Proof.
  repeat split; try (vm_compute; reflexivity).
  - vm_compute. left. reflexivity.
  - exists [("s1", IdStr "0"); ("s2", IdStr "0")], [],
      ("out/out_clusters.csv",
       ["Taxon,Cluster" ++ newline; "s1,0" ++ newline; "s2,0" ++ newline]%string).
    repeat split; vm_compute; reflexivity.
Qed.

(** ** The cluster file *)

(** C8, at the network of the edge ab-ac and the isolated node aa.  The
    file has the header and one comma-separated row per sample, but the
    rows are sorted by the first character of the name only: aa, the
    smallest name, is written last. *)
Theorem printClusters_rows_by_first_character :
  printClusters no_files same_initial_graph "out" None true
  = Ok ([("ab", IdInt 0); ("ac", IdInt 0); ("aa", IdInt 1)], [],
        ("out/out_clusters.csv",
         ["Taxon,Cluster" ++ newline; "ab,0" ++ newline; "ac,0" ++ newline;
          "aa,1" ++ newline]%string)) /\
  ("aa" <? "ab")%string = true.
Proof.
  split; vm_compute; reflexivity.
Qed.

(** ** Components that share a previous cluster *)

Lemma first_part_append (a b : string) :
  first_part (a ++ "_" ++ b) = first_part a.
Proof.
  induction a as [| c a IH]; simpl in *; [reflexivity |].
  destruct (Ascii.eqb c "_"); [reflexivity | now rewrite IH].
Qed.

Lemma first_part_whole (s : string) : has_underscore s = false -> first_part s = s.
Proof.
  induction s as [| c s IH]; simpl; [reflexivity |].
  intros H. apply orb_false_iff in H. destruct H as [Hc Hs].
  rewrite Hc. now rewrite IH.
Qed.

Lemma overlap_shares (ref_only members : PySet.t) :
  (0 <? overlap ref_only members) = true <-> shares_member ref_only members.
Proof.
  unfold overlap, PySet.len, shares_member. rewrite Nat.ltb_lt. split.
  - intros H. destruct (PySet.inter ref_only members) as [| x l] eqn:E; [simpl in H; lia |].
    exists x. apply In_inter. rewrite E. now left.
  - intros [x Hx]. apply In_inter in Hx.
    destruct (PySet.inter ref_only members); [contradiction | simpl; lia].
Qed.

Lemma In_old_names (oldClusters : PyDict.t PySet.t) (x : sample) :
  In x (old_names oldClusters) <->
  exists name members, In (name, members) oldClusters /\ In x members.
Proof.
  unfold old_names.
  assert (H : forall (l : PyDict.t PySet.t) (acc : PySet.t),
             In x (fold_left (fun oldNames prev => PySet.update oldNames (snd prev)) l acc)
             <-> In x acc \/ exists name members, In (name, members) l /\ In x members).
  { induction l as [| [name members] l IH]; intros acc; simpl.
    - split; [now left | intros [H | [n [m [[] _]]]]; exact H].
    - rewrite IH, In_update. simpl. split.
      + intros [[H | H] | [n [m [H1 H2]]]]; eauto 6.
      + intros [H | [n [m [[H1 | H1] H2]]]]; eauto 6.
        inversion H1; subst. auto. }
  rewrite H. simpl. split; [intros [[] | H0]; exact H0 | now right].
Qed.

(** The id the search returns starts with the id of a previous cluster
    that shares a member with [ref_only]. *)
Lemma scan_old_first_part (ref_only : PySet.t) (oldClusters : PyDict.t PySet.t)
      (cls : option string) (r : string) :
  scan_old ref_only oldClusters cls = Ok (Some r) ->
  match cls with
  | Some c => first_part r = first_part c
  | None => exists name members,
      In (name, members) oldClusters /\
      shares_member ref_only members /\
      first_part r = first_part name
  end.
Proof.
  revert cls. induction oldClusters as [| [name members] rest IH]; intros cls.
  - simpl. intros H. inversion H; subst. reflexivity.
  - rewrite scan_old_cons.
    destruct (partial_match ref_only members) eqn:Ep.
    + intros H. apply IH in H. destruct cls as [c |]; cbn [composite fold_left] in H.
      * now rewrite first_part_append in H.
      * exists name, members. split; [now left |]. split; [| exact H].
        apply overlap_shares. rewrite meets_partial_or_exact, Ep. reflexivity.
    + destruct (exact_match ref_only members) eqn:Ee.
      * destruct cls; [discriminate |]. intros H. inversion H; subst.
        exists r, members. split; [now left |]. split; [| reflexivity].
        apply overlap_shares. rewrite meets_partial_or_exact, Ee. apply orb_true_r.
      * intros H. apply IH in H. destruct cls; [exact H |].
        destruct H as [n [m [H1 H2]]]. exists n, m. split; [now right | exact H2].
Qed.

(** Once an id has been begun the search does not end without one. *)
Lemma scan_old_begun (ref_only : PySet.t) (oldClusters : PyDict.t PySet.t) (c : string) :
  scan_old ref_only oldClusters (Some c) <> Ok None.
Proof.
  revert c. induction oldClusters as [| [name members] rest IH]; intros c.
  - simpl. congruence.
  - rewrite scan_old_cons. destruct (partial_match ref_only members); [apply IH |].
    destruct (exact_match ref_only members); [discriminate | apply IH].
Qed.

(** The search ends without an id only when no previous cluster shares
    a member with [ref_only]. *)
Lemma scan_old_no_id (ref_only : PySet.t) (oldClusters : PyDict.t PySet.t) :
  scan_old ref_only oldClusters None = Ok None ->
  forall name members, In (name, members) oldClusters -> ~ shares_member ref_only members.
Proof.
  induction oldClusters as [| [name members] rest IH].
  - intros _ n m [].
  - rewrite scan_old_cons.
    destruct (partial_match ref_only members) eqn:Ep.
    + intros H. now apply scan_old_begun in H.
    + destruct (exact_match ref_only members) eqn:Ee; [discriminate |].
      intros H n m [Hin | Hin].
      * inversion Hin; subst. intros Hs. apply overlap_shares in Hs.
        rewrite meets_partial_or_exact, Ep, Ee in Hs. discriminate.
      * now apply (IH H n m).
Qed.

Lemma NoDup_keys_functional (V : Type) (d : PyDict.t V) (k : string) (v v' : V) :
  NoDup (PyDict.keys d) -> In (k, v) d -> In (k, v') d -> v = v'.
Proof.
  unfold PyDict.keys. induction d as [| [k0 v0] d IH]; simpl; [contradiction |].
  intros Hnd H H'. inversion Hnd as [| ? ? Hnot Hnd']; subst.
  destruct H as [H | H], H' as [H' | H'].
  - congruence.
  - inversion H; subst. exfalso. apply Hnot. now apply (in_map fst) in H'.
  - inversion H'; subst. exfalso. apply Hnot. now apply (in_map fst) in H.
  - now apply IH.
Qed.

Lemma read_rows_NoDup_keys (rows : list string) (clusters clusters' : PyDict.t PySet.t) :
  NoDup (PyDict.keys clusters) -> read_rows rows clusters = Ok clusters' ->
  NoDup (PyDict.keys clusters').
Proof.
  revert clusters. induction rows as [| line rows IH]; intros clusters Hnd; simpl.
  - intros H. now inversion H; subst.
  - destruct (fields line) as [| s [| id [| x l]]]; try discriminate.
    apply IH. unfold defaultdict_add.
    destruct (PyDict.get id clusters); now apply NoDup_keys_set.
Qed.

(** The ids of a clustering that was read are pairwise different. *)
Lemma readClusters_NoDup_keys (fs : filesystem) (f : string)
      (oldClusters : PyDict.t PySet.t) :
  readClusters fs f = Ok oldClusters -> NoDup (PyDict.keys oldClusters).
Proof.
  unfold readClusters. destruct (fs f) as [lines |]; [| discriminate].
  apply read_rows_NoDup_keys. constructor.
Qed.

Lemma name_cluster_new_id (oldClusters : PyDict.t PySet.t) (oldNames : PySet.t)
      (idx nid nid' : nat) (c : PySet.t) (id : cluster_id) (refs : list sample) :
  name_cluster (Some (oldClusters, oldNames)) idx nid c = Ok (id, nid', refs) ->
  (PySet.inter oldNames c = [] /\ id = IdInt nid /\ nid' = S nid) \/
  (PySet.inter oldNames c <> [] /\ nid' = nid /\
   exists s, scan_old (PySet.inter oldNames c) oldClusters None = Ok s /\ id = of_scan s).
Proof.
  unfold name_cluster. destruct (PySet.inter oldNames c) as [| x l] eqn:E; simpl.
  - destruct c; [discriminate |]. intros H. inversion H; subst. now left.
  - destruct (scan_old (x :: l) oldClusters None) as [s |]; simpl; [| discriminate].
    intros H. inversion H; subst. right. split; [discriminate |]. eauto.
Qed.

Lemma printClusters_Ok_trace (fs : filesystem) (G : Graph) (outPrefix : string)
      (oldClusterFile : option string) (printRef : bool)
      (clustering : PyDict.t cluster_id) (db : list sample) (file : string * list string) :
  printClusters fs G outPrefix oldClusterFile printRef = Ok (clustering, db, file) ->
  exists old trace,
    load_previous fs oldClusterFile = Ok old /\
    name_trace old 0 (first_new_id old) (newClusters_of G) = Ok trace /\
    clustering = assign_trace trace [].
Proof.
  unfold printClusters, label_clusters.
  destruct (match oldClusterFile with None => negb printRef | Some _ => false end);
    [discriminate |].
  destruct (load_previous fs oldClusterFile) as [old |]; simpl; [| discriminate].
  pose proof (name_clusters_trace old (newClusters_of G) 0 (first_new_id old) [] [])
    as Hloop.
  destruct (name_clusters old 0 (first_new_id old) (newClusters_of G) [] [])
    as [[d db'] | e]; simpl; [| discriminate].
  destruct (cluster_file d printRef old); simpl; [| discriminate].
  intros H. inversion H; subst. destruct Hloop as [trace [Ht Hd]].
  exists old, trace. auto.
Qed.

(** The previous cluster 0 = {s1, s2} is split: s1 and s2 are two
    components of the new network, and both keep the id 0. *)
Lemma printClusters_split_shares_id :
  In ["s1"] (newClusters_of split_graph) /\
  In ["s2"] (newClusters_of split_graph) /\
  ["s1"] <> ["s2"] /\
  exists clustering db file,
    printClusters split_file split_graph "out" (Some "old_clusters.csv") true
    = Ok (clustering, db, file) /\
    PyDict.get "s1" clustering = Some (IdStr "0") /\
    PyDict.get "s2" clustering = Some (IdStr "0").
Proof.
  split; [vm_compute; left; reflexivity |].
  split; [vm_compute; right; left; reflexivity |].
  split; [discriminate |].
  exists [("s1", IdStr "0"); ("s2", IdStr "0")], [],
    ("out/out_clusters.csv",
     ["Taxon,Cluster" ++ newline; "s1,0" ++ newline; "s2,0" ++ newline]%string).
  repeat split; vm_compute; reflexivity.
Qed.

(** * Further properties *)

(** ** The references *)








(** ** Adding queries *)








(** ** Growing networks *)





(** ** The clustering of a run that returns *)







(** ** The cluster file *)






(** ** Novel clusters *)







(** ** The previous clustering *)







(** ** Previous clusterings in which every sample has one id *)









(** ** Strings *)








Lemma string_of_uint_digits (d : Decimal.uint) :
  all_digits (NilEmpty.string_of_uint d) = true.
Proof.
  induction d; simpl; try reflexivity; exact IHd.
Qed.

Lemma to_little_uint_nonnil (n : nat) (acc : Decimal.uint) :
  acc <> Decimal.Nil -> Nat.to_little_uint n acc <> Decimal.Nil.
Proof.
  revert acc. induction n as [| n IH]; intros acc Hacc; simpl; [exact Hacc |].
  apply IH. destruct acc; simpl; discriminate || congruence.
Qed.

(** [str(n)] is a non-empty string of digits, and different numbers
    print differently. *)
Lemma str_of_nat_spec (n : nat) :
  str_of_nat n <> EmptyString /\ all_digits (str_of_nat n) = true /\
  forall m, str_of_nat n = str_of_nat m -> n = m.
Proof.
  unfold str_of_nat. split; [| split].
  - intros H. assert (Hn : Nat.to_uint n = Decimal.Nil).
    { destruct (Nat.to_uint n); simpl in H; try discriminate. reflexivity. }
    unfold Nat.to_uint in Hn. apply DecimalFacts.rev_nil_inv in Hn.
    revert Hn. apply to_little_uint_nonnil. discriminate.
  - apply string_of_uint_digits.
  - intros m H. apply Unsigned.to_uint_inj.
    assert (Hs : Some (Nat.to_uint n) = Some (Nat.to_uint m)).
    { rewrite <- !NilEmpty.usu. now rewrite H. }
    now inversion Hs.
Qed.


(** ** Reading the cluster file back *)








(** ** A second run on the same network *)



(** ** Distinct ids *)

Lemma is_digit_no_underscore (c : ascii) : is_digit c = true -> Ascii.eqb c "_" = false.
Proof.
  unfold is_digit. intros H. apply andb_true_iff in H. destruct H as [_ H].
  apply Nat.leb_le in H. apply Ascii.eqb_neq. intros ->. vm_compute in H. lia.
Qed.

Lemma all_digits_no_underscore (s : string) :
  all_digits s = true -> has_underscore s = false.
Proof.
  induction s as [| c s IH]; simpl; [reflexivity |].
  intros H. apply andb_true_iff in H. destruct H as [Hc Hs].
  now rewrite (is_digit_no_underscore c Hc), (IH Hs).
Qed.

Lemma has_underscore_append (a b : string) : has_underscore (a ++ "_" ++ b) = true.
Proof.
  induction a as [| c a IH]; simpl in *; [reflexivity |].
  rewrite IH. apply orb_true_r.
Qed.

(** The id the search returns is the id of a previous cluster, or it
    has an underscore. *)
Lemma scan_old_shape (ref_only : PySet.t) (oldClusters : PyDict.t PySet.t)
      (cls : option string) (r : string) :
  scan_old ref_only oldClusters cls = Ok (Some r) ->
  match cls with
  | None => In r (PyDict.keys oldClusters) \/ has_underscore r = true
  | Some c => r = c \/ has_underscore r = true
  end.
Proof.
  revert cls. induction oldClusters as [| [name members] rest IH]; intros cls.
  - simpl. intros H. inversion H; subst. now left.
  - rewrite scan_old_cons.
    destruct (partial_match ref_only members) eqn:Ep.
    + intros H. apply IH in H. destruct cls as [c |]; cbn [composite fold_left] in H.
      * right. destruct H as [-> | H]; [apply has_underscore_append | exact H].
      * destruct H as [-> | H]; [left; now left | now right].
    + destruct (exact_match ref_only members) eqn:Ee.
      * destruct cls; [discriminate |]. intros H. inversion H; subst. left. now left.
      * intros H. apply IH in H. destruct cls; [exact H |].
        destruct H as [H | H]; [left; now right | now right].
Qed.

(** A component with previously known members gets an id from the
    search. *)
Lemma scan_old_some (oldClusters : PyDict.t PySet.t) (C : PySet.t) (s : option string) :
  PySet.inter (old_names oldClusters) C <> [] ->
  scan_old (PySet.inter (old_names oldClusters) C) oldClusters None = Ok s ->
  exists a, s = Some a.
Proof.
  intros HC Hs. destruct s as [a |]; [eauto |]. exfalso.
  destruct (PySet.inter (old_names oldClusters) C) as [| x l] eqn:E; [congruence |].
  assert (Hx : In x (PySet.inter (old_names oldClusters) C)) by (rewrite E; now left).
  apply In_inter in Hx. destruct Hx as [Hx HxC].
  apply In_old_names in Hx. destruct Hx as [name [members [Hin Hm]]].
  apply (@scan_old_no_id _ _ Hs name members Hin).
  exists x. split; [now left | exact Hm].
Qed.

(** Two components with previously known members get different ids when
    the previous ids have no underscore and no previous cluster shares
    members with both. *)
Lemma seen_ids_differ (oldClusters : PyDict.t PySet.t) (c c' : PySet.t) (a a' : string) :
  NoDup (PyDict.keys oldClusters) ->
  (forall name members, In (name, members) oldClusters -> has_underscore name = false) ->
  (forall name members, In (name, members) oldClusters ->
                        shares_member members c -> shares_member members c' -> c = c') ->
  c <> c' ->
  scan_old (PySet.inter (old_names oldClusters) c) oldClusters None = Ok (Some a) ->
  scan_old (PySet.inter (old_names oldClusters) c') oldClusters None = Ok (Some a') ->
  a <> a'.
Proof.
  intros Hnd Hus Hwhole Hcc Hs Hs' Heq. subst a'.
  assert (Hhit : forall C, scan_old (PySet.inter (old_names oldClusters) C) oldClusters None
                           = Ok (Some a) ->
                           exists name members,
                             In (name, members) oldClusters /\
                             shares_member members C /\ first_part a = name).
  { intros C Hr.
    destruct (@scan_old_first_part _ _ None a Hr) as [name [members [Hin [Hsh Hfp]]]].
    exists name, members. split; [exact Hin |]. split.
    - destruct Hsh as [x [Hx Hm]]. apply In_inter in Hx. exists x. tauto.
    - rewrite Hfp. apply first_part_whole. eapply Hus, Hin. }
  destruct (Hhit c Hs) as [n [m [Hin [Hsh Hfp]]]].
  destruct (Hhit c' Hs') as [n' [m' [Hin' [Hsh' Hfp']]]].
  apply Hcc.
  assert (Hn : n' = n) by congruence.
  rewrite Hn in Hin'.
  assert (Hm : m' = m) by (apply (@NoDup_keys_functional _ oldClusters n m' m Hnd Hin' Hin)).
  rewrite Hm in Hsh'.
  now apply (Hwhole n m).
Qed.

(** The id of a component with previously known members is not printed
    like a fresh id. *)
Lemma seen_id_not_fresh (oldClusters : PyDict.t PySet.t) (C : PySet.t)
      (a : string) (n : nat) :
  (forall name members, In (name, members) oldClusters -> name <> str_of_nat n) ->
  scan_old (PySet.inter (old_names oldClusters) C) oldClusters None = Ok (Some a) ->
  a <> str_of_nat n.
Proof.
  intros Hfresh Hs Heq. apply scan_old_shape in Hs. destruct Hs as [Hin | Hus].
  - unfold PyDict.keys in Hin. apply in_map_iff in Hin.
    destruct Hin as [[name members] [Hname Hin]]. simpl in Hname. subst name.
    now apply (Hfresh a members).
  - destruct (str_of_nat_spec n) as [_ [Hdig _]].
    rewrite Heq, (all_digits_no_underscore _ Hdig) in Hus. discriminate.
Qed.

(** With a previous clustering, an entry of the trace and a later entry
    for another component have ids that are printed differently. *)
Lemma name_trace_later_differs (oldClusters : PyDict.t PySet.t)
      (newClusters : list PySet.t) (idx nid : nat)
      (trace t1 t2 : list (PySet.t * cluster_id))
      (c c' : PySet.t) (id id' : cluster_id) :
  NoDup (PyDict.keys oldClusters) ->
  (forall name members, In (name, members) oldClusters -> has_underscore name = false) ->
  (forall name members n, In (name, members) oldClusters ->
                          length oldClusters <= n -> name <> str_of_nat n) ->
  (forall name members, In (name, members) oldClusters ->
                        shares_member members c -> shares_member members c' -> c = c') ->
  length oldClusters <= nid ->
  name_trace (Some (oldClusters, old_names oldClusters)) idx nid newClusters = Ok trace ->
  trace = t1 ++ (c, id) :: t2 -> In (c', id') t2 -> c <> c' -> str id <> str id'.
Proof.
  intros Hnd Hus Hfresh Hwhole. revert idx nid trace t1.
  induction newClusters as [| c0 rest IH]; intros idx nid trace t1 Hnid; cbn [name_trace].
  - intros H. inversion H. destruct t1; discriminate.
  - destruct (name_cluster (Some (oldClusters, old_names oldClusters)) idx nid c0)
      as [[[id0 nid0] refs] |] eqn:E; cbn [bind]; [| discriminate].
    destruct (name_trace (Some (oldClusters, old_names oldClusters)) (S idx) nid0 rest)
      as [tr |] eqn:Et; cbn [bind]; [| discriminate].
    intros H. inversion H as [Htrace]. clear H Htrace. intros Hsplit Hin Hcc.
    apply name_cluster_new_id in E.
    assert (Hnid0 : nid <= nid0)
      by (destruct E as [[_ [_ ->]] | [_ [-> _]]]; lia).
    destruct t1 as [| x t1]; simpl in Hsplit; inversion Hsplit; subst.
    + destruct (@name_trace_In _ _ _ _ _ _ _ Et Hin) as [i [n [n' [r [Hn Hle]]]]].
      apply name_cluster_new_id in Hn.
      destruct E as [[He [-> ->]] | [He [-> [s [Hs ->]]]]],
               Hn as [[He' [-> _]] | [He' [_ [s' [Hs' ->]]]]].
      * simpl. intros H. apply (proj2 (proj2 (str_of_nat_spec nid))) in H. lia.
      * destruct (scan_old_some _ _ He' Hs') as [a' ->]. simpl. intros H.
        symmetry in H. revert H. apply (seen_id_not_fresh oldClusters c'); [| exact Hs'].
        intros name members Hnm. apply (Hfresh name members); [exact Hnm | lia].
      * destruct (scan_old_some _ _ He Hs) as [a ->]. simpl.
        apply (seen_id_not_fresh oldClusters c); [| exact Hs].
        intros name members Hnm. apply (Hfresh name members); [exact Hnm | lia].
      * destruct (scan_old_some _ _ He Hs) as [a ->].
        destruct (scan_old_some _ _ He' Hs') as [a' ->]. simpl.
        apply (@seen_ids_differ oldClusters c c' a a'); assumption.
    + eapply (IH (S idx) nid0); [lia | exact Et | reflexivity | exact Hin | exact Hcc].
Qed.

(** C2, as the code has it.  In a run of [printClusters] that returns,
    members of two different components have different ids, also as
    the ids are printed in the file, provided that, when there is a
    previous clustering, no previous id has an underscore, no previous
    id is the decimal form of a number that is not below the number of
    previous clusters, and no previous cluster has members in two
    components. *)
Theorem printClusters_distinct_ids
        (fs : filesystem) (G : Graph) (outPrefix : string)
        (oldClusterFile : option string) (printRef : bool)
        (clustering : PyDict.t cluster_id) (db : list sample) (file : string * list string)
        (Hrun : printClusters fs G outPrefix oldClusterFile printRef
                = Ok (clustering, db, file))
        (Hids : forall f oldClusters name members,
            oldClusterFile = Some f -> readClusters fs f = Ok oldClusters ->
            In (name, members) oldClusters -> has_underscore name = false)
        (Hfresh : forall f oldClusters name members n,
            oldClusterFile = Some f -> readClusters fs f = Ok oldClusters ->
            In (name, members) oldClusters -> length oldClusters <= n ->
            name <> str_of_nat n)
        (Hwhole : forall f oldClusters name members C C',
            oldClusterFile = Some f -> readClusters fs f = Ok oldClusters ->
            In (name, members) oldClusters ->
            In C (newClusters_of G) -> In C' (newClusters_of G) ->
            shares_member members C -> shares_member members C' -> C = C') :
  forall C C' m m',
    In C (newClusters_of G) -> In C' (newClusters_of G) -> C <> C' ->
    In m C -> In m' C' ->
    exists id id',
      PyDict.get m clustering = Some id /\
      PyDict.get m' clustering = Some id' /\
      id <> id' /\ str id <> str id'.
Proof.
  intros C C' m m' HC HC' Hcc Hm Hm'.
  destruct (@printClusters_Ok_trace _ _ _ _ _ _ _ _ Hrun) as [old [trace [Hload [Ht ->]]]].
  pose proof (@name_trace_clusters _ _ _ _ _ Ht) as Hmap.
  destruct (newClusters_partition G) as [_ [Hnd _]].
  destruct (@get_assign_trace trace []) as [Hget _]; [now rewrite Hmap |].
  rewrite <- Hmap in HC, HC'.
  apply in_map_iff in HC, HC'.
  destruct HC as [[c id] [Hc Hin]], HC' as [[c' id'] [Hc' Hin']].
  simpl in Hc, Hc'. subst c c'.
  exists id, id'. split; [now apply Hget with C |]. split; [now apply Hget with C' |].
  assert (Hstr : str id <> str id'); [| split; [intros ->; now apply Hstr | exact Hstr]].
  destruct old as [[oldClusters oldNames] |].
  - (* with a previous clustering *)
    destruct oldClusterFile as [f |]; simpl in Hload; [| discriminate].
    destruct (readClusters fs f) as [oc |] eqn:Hread; simpl in Hload; [| discriminate].
    inversion Hload; subst oc oldNames. clear Hload.
    pose proof (@readClusters_NoDup_keys _ _ _ Hread) as Hkeys.
    assert (Hus : forall name members,
               In (name, members) oldClusters -> has_underscore name = false)
      by (intros name members; now apply (Hids f oldClusters)).
    assert (Hfr : forall name members n,
               In (name, members) oldClusters -> length oldClusters <= n ->
               name <> str_of_nat n)
      by (intros name members n; now apply (Hfresh f oldClusters)).
    assert (Hin_comps : forall c i, In (c, i) trace -> In c (newClusters_of G)).
    { intros c i H. rewrite <- Hmap. now apply (in_map fst) in H. }
    destruct (in_split _ _ Hin) as [t1 [t2 Hsplit]].
    assert (Hin2 : In (C', id') (t1 ++ (C, id) :: t2)) by (now rewrite <- Hsplit).
    simpl in Ht.
    apply in_app_iff in Hin2. destruct Hin2 as [Hin2 | [Hin2 | Hin2]].
    + destruct (in_split _ _ Hin2) as [t1a [t1b Hsplit1]].
      rewrite Hsplit1, <- app_assoc in Hsplit. simpl in Hsplit.
      intros Heq. symmetry in Heq. revert Heq.
      apply (@name_trace_later_differs oldClusters (newClusters_of G) 0
               (length oldClusters) trace t1a (t1b ++ (C, id) :: t2) C' C id' id);
        try assumption.
      * intros name members Hnm Hs Hs'.
        apply (Hwhole f oldClusters name members); eauto.
      * apply Nat.le_refl.
      * apply in_app_iff. right. now left.
      * congruence.
    + inversion Hin2. congruence.
    + apply (@name_trace_later_differs oldClusters (newClusters_of G) 0
               (length oldClusters) trace t1 t2 C C' id id'); try assumption.
      * intros name members Hnm Hs Hs'.
        apply (Hwhole f oldClusters name members); eauto.
      * apply Nat.le_refl.
  - (* without one: the id is the rank *)
    destruct (name_trace_None (newClusters_of G) 0 0) as [trace' [Ht' Hrank]].
    simpl in Ht. assert (trace' = trace) by congruence. subst trace'.
    apply Hrank in Hin, Hin'.
    destruct Hin as [i [Hi ->]], Hin' as [i' [Hi' ->]].
    simpl. intros H. apply (proj2 (proj2 (str_of_nat_spec i))) in H. subst i'. congruence.
Qed.

(** The previous clusters 0 and 1 stay apart and keep their ids. *)
Lemma printClusters_distinct_ids_witness :
  exists clustering db file,
    printClusters previous_clustering_file apart_graph "out" (Some "old_clusters.csv") true
    = Ok (clustering, db, file) /\
    exists id id',
      PyDict.get "s1" clustering = Some id /\
      PyDict.get "q1" clustering = Some id' /\
      id <> id' /\ str id <> str id'.
Proof.
  assert (Hrun : printClusters previous_clustering_file apart_graph "out"
                   (Some "old_clusters.csv") true
                 = Ok ([("s1", IdStr "0"); ("s2", IdStr "0"); ("s3", IdStr "1");
                        ("q1", IdStr "1")], [],
                       ("out/out_clusters.csv",
                        ["Taxon,Cluster" ++ newline; "q1,1" ++ newline;
                         "s1,0" ++ newline; "s2,0" ++ newline;
                         "s3,1" ++ newline]%string)))
    by (vm_compute; reflexivity).
  assert (Hread : readClusters previous_clustering_file "old_clusters.csv"
                  = Ok [("0", ["s1"; "s2"]); ("1", ["s3"])])
    by (vm_compute; reflexivity).
  assert (Hcomps : newClusters_of apart_graph = [["s1"; "s2"]; ["s3"; "q1"]])
    by (vm_compute; reflexivity).
  do 3 eexists. split; [exact Hrun |].
  apply (@printClusters_distinct_ids previous_clustering_file apart_graph "out"
           (Some "old_clusters.csv") true _ _ _ Hrun)
    with (C := ["s1"; "s2"]) (C' := ["s3"; "q1"]).
  - intros f oldClusters name members Hf Hr Hin.
    inversion Hf; subst f. rewrite Hread in Hr. inversion Hr; subst oldClusters.
    destruct Hin as [Hin | [Hin | []]]; inversion Hin; reflexivity.
  - intros f oldClusters name members n Hf Hr Hin Hn.
    inversion Hf; subst f. rewrite Hread in Hr. inversion Hr; subst oldClusters.
    simpl in Hn.
    destruct Hin as [Hin | [Hin | []]]; inversion Hin; intros Heq.
    + change "0" with (str_of_nat 0) in Heq.
      apply (proj2 (proj2 (str_of_nat_spec 0))) in Heq. lia.
    + change "1" with (str_of_nat 1) in Heq.
      apply (proj2 (proj2 (str_of_nat_spec 1))) in Heq. lia.
  - intros f oldClusters name members C C' Hf Hr Hin HC HC' [x [Hx HxC]] [y [Hy HyC]].
    inversion Hf; subst f. rewrite Hread in Hr. inversion Hr; subst oldClusters.
    rewrite Hcomps in HC, HC'.
    destruct HC as [<- | [<- | []]], HC' as [<- | [<- | []]]; try reflexivity;
      destruct Hin as [Hin | [Hin | []]]; inversion Hin; subst; simpl in *;
        intuition (subst; try discriminate).
  - rewrite Hcomps. left. reflexivity.
  - rewrite Hcomps. right. left. reflexivity.
  - discriminate.
  - simpl. auto.
  - simpl. auto.
Defined.

(** Why the ids of the previous clustering matter.  With the previous
    ids 1 and 2 the first fresh id is the integer 2, printed like the
    previous id 2; with the previous ids 0_1, 0 and 1 the merge of 0 and
    1 is named 0_1 like the first cluster. *)
Lemma printClusters_clashing_previous_ids :
  printClusters shifted_ids_file shifted_ids_graph "out" (Some "old_clusters.csv") true
  = Ok ([("s1", IdStr "1"); ("s2", IdStr "2"); ("q1", IdInt 2)], ["q1"],
        ("out/out_clusters.csv",
         ["Taxon,Cluster" ++ newline; "q1,2" ++ newline; "s1,1" ++ newline;
          "s2,2" ++ newline]%string)) /\
  printClusters merged_ids_file merged_ids_graph "out" (Some "old_clusters.csv") true
  = Ok ([("s2", IdStr "0_1"); ("s3", IdStr "0_1"); ("s1", IdStr "0_1")], [],
        ("out/out_clusters.csv",
         ["Taxon,Cluster" ++ newline; "s2,0_1" ++ newline; "s3,0_1" ++ newline;
          "s1,0_1" ++ newline]%string)).
Proof.
  split; vm_compute; reflexivity.
Qed.
